(** * clint_utilities: the durable HTTP request executor

    A shallow embedding of [make_durable_request], [make_durable_post] and
    [make_durable_get] from [clint_utilities/__init__.py], and the
    properties of the retry / backoff / classification policy.

    Python values are modelled as follows.
    - [int] is [Z]; a [float] delay is an exact rational [Q] (doubling a
      binary float is exact short of overflow, which is out of the model).
    - A [requests.Response] is a record of its [status_code] and [text].
    - Exceptions are values: the success classes carry the response, the
      error classes their message.
    - The transport ([method]) is a stateful callable: it reads and updates
      an abstract network state and either returns a response or raises.
    - Effects are a state-and-exception monad that also collects the
      events the code performs (transport calls, sleeps, log lines).

    The other helpers of the module follow: the date cache ([parse_date],
    [datetime_to_timestamp], [date_string_to_timestamp]), [parse_args] and
    [assert_raises].  Their collaborators ([dateutil]'s parser,
    [datetime.timestamp], [argparse]) are parameters. *)

From Equations Require Import Equations.
From Stdlib Require Import ZArith QArith List String Ascii Lia.
From Stdlib Require Import DecimalString.
Import ListNotations.

Local Open Scope string_scope.
Local Open Scope Z_scope.

(** ** Python values *)

Record Response := mkResponse { status_code : Z; text : string }.

Set Warnings "-register-all".

(** A JSON payload; the [json] keyword argument is a [Dict]. *)
Inductive JSON :=
| JNull
| JBool (b : bool)
| JNum (z : Z)
| JStr (s : string)
| JList (l : list JSON)
| JDict (d : list (string * JSON)).

Definition Dict := list (string * JSON).

(** The classes a caller may pass as [success] ([Type[RequestSuccess]]):
    [RequestSuccess], its subclass [StoreSuccess], or a subclass of
    [RequestSuccess] defined by the caller. *)
Inductive success_class :=
| RequestSuccess
| StoreSuccess
| CustomSuccess (name : string).

(** The classes a caller may pass as [error] ([Type[RequestError]]). *)
Inductive error_class :=
| RequestError
| StoreError
| CustomError (name : string).

(** Exception instances.  [Success cls response] is [cls(response=response)]
    and [Error cls msg] is [cls(msg)].  [ConnectionError] is
    [requests.exceptions.ConnectionError] and [socket_timeout] is
    [socket.timeout], the two the executor catches; [OtherException]
    stands for any class the module does not name. *)
Inductive exception :=
| Success (cls : success_class) (response : Response)
| Error (cls : error_class) (msg : string)
| ValueError (msg : string)
| UnboundLocalError (var : string)
| ConnectionError
| socket_timeout
| OtherException (name : string).

(** ** Truthiness and string formatting *)

(** [x or default] on an optional list: [None] and [[]] are falsy. *)
Definition list_or {A} (x : option (list A)) (default : list A) : list A :=
  match x with
  | Some (a :: l) => a :: l
  | _ => default
  end.

(** [x or default] on an optional class object: only [None] is falsy. *)
Definition class_or {C} (x : option C) (default : C) : C :=
  match x with
  | Some c => c
  | None => default
  end.

(** [if json:] on an [Optional[Dict]]: [None] and [{}] are falsy. *)
Definition truthy (json : option Dict) : bool :=
  match json with
  | Some (_ :: _) => true
  | _ => false
  end.

(** ["%s" % n] for an [int]. *)
Definition str_int (n : Z) : string := NilZero.string_of_int (Z.to_int n).

(** [x in l] for a list of [int]. *)
Definition int_in (x : Z) (l : list Z) : bool := existsb (Z.eqb x) l.

(** [x < y] on rationals. *)
Definition Qltb (x y : Q) : bool :=
  (Qnum x * QDen y <? Qnum y * QDen x)%Z.

(** ** Effects *)

(** Keyword arguments of one transport call: [method(url=url)] leaves
    [kw_json] absent, [method(url=url, json=json)] carries it. *)
Record kwargs := mkKwargs { kw_url : string; kw_json : option Dict }.

Inductive level := WARNING | INFO | ERROR.

(** What one transport call does: return a response or raise. *)
Inductive outcome :=
| Returns (r : Response)
| Raises (e : exception).

(** What the code does to the outside world: a transport call (recorded
    with what came back), a [time.sleep], a log line. *)
Inductive event :=
| ECall (kw : kwargs) (o : outcome)
| ESleep (seconds : Q)
| ELog (lvl : level) (msg : string).

Inductive result (A : Type) :=
| Return (a : A)
| Raise (e : exception).
Arguments Return {A} a.
Arguments Raise {A} e.

Section Executor.

(** The state of the network the transport talks to. *)
Variable Net : Type.

Record run (A : Type) := mkRun {
  value : result A;
  emitted : list event;
  after : Net
}.
Arguments mkRun {A}.
Arguments value {A}.
Arguments emitted {A}.
Arguments after {A}.

Definition M (A : Type) := Net -> run A.

Definition ret {A} (a : A) : M A := fun n => mkRun (Return a) [] n.

Definition raise {A} (e : exception) : M A := fun n => mkRun (Raise e) [] n.

Definition bind {A B} (m : M A) (k : A -> M B) : M B :=
  fun n =>
    let r := m n in
    match value r with
    | Return a =>
        let r' := k a (after r) in
        mkRun (value r') (emitted r ++ emitted r') (after r')
    | Raise e => mkRun (Raise e) (emitted r) (after r)
    end.

(** [try: m  except ... as exc: ...]; [handler exc] is [None] when the
    [except] clause does not match [exc], which then propagates. *)
Definition try_except {A} (m : M A) (handler : exception -> option (M A)) : M A :=
  fun n =>
    let r := m n in
    match value r with
    | Return a => r
    | Raise e =>
        match handler e with
        | Some h =>
            let r' := h (after r) in
            mkRun (value r') (emitted r ++ emitted r') (after r')
        | None => r
        end
    end.

Definition emit (ev : event) : M unit := fun n => mkRun (Return tt) [ev] n.

Definition logger_warning (msg : string) : M unit := emit (ELog WARNING msg).
Definition logger_info (msg : string) : M unit := emit (ELog INFO msg).
Definition logger_error (msg : string) : M unit := emit (ELog ERROR msg).
Definition time_sleep (seconds : Q) : M unit := emit (ESleep seconds).

(** A transport: [Callable[..., requests.Response]]. *)
Definition Method := kwargs -> Net -> outcome * Net.

Definition call (method : Method) (kw : kwargs) : M Response :=
  fun n =>
    match method kw n with
    | (Returns r, n') => mkRun (Return r) [ECall kw (Returns r)] n'
    | (Raises e, n') => mkRun (Raise e) [ECall kw (Raises e)] n'
    end.

Notation "x <- m ;; k" := (bind m (fun x => k))
  (at level 61, m at next level, right associativity).
Notation "m ;; k" := (bind m (fun _ => k))
  (at level 61, right associativity).

(** ** The executor *)

Equations? make_durable_request (method : Method) (url : string)
    (num_attempts : Z) (delay : Q) (success_codes : option (list Z))
    (success : option success_class) (error : option error_class)
    (json : option Dict) : M unit
    by wf (Z.to_nat num_attempts) lt :=
make_durable_request method url num_attempts delay success_codes success error json :=
  if num_attempts <=? 0 then
    raise (ValueError "The value of `num_attempts` must be greater than 0.")
  else if Qltb delay 0 then
    raise (ValueError "The value of `delay` must be greater than or equal to 0.")
  else
    let success := class_or success RequestSuccess in
    let error := class_or error RequestError in
    let success_codes := list_or success_codes [200; 201; 202; 204] in
    response <-
      try_except
        (if truthy json then
           r <- call method (mkKwargs url json) ;; ret (Some r)
         else
           r <- call method (mkKwargs url None) ;; ret (Some r))
        (fun exc =>
           match exc with
           | ConnectionError | socket_timeout =>
               Some (logger_warning "Network error." ;; ret None)
           | _ => None
           end) ;;
    match response with
    | Some response =>
        if (status_code response >=? 500) && (status_code response <? 600) then
          logger_warning "Server error."
        else if int_in (status_code response) success_codes then
          logger_info "Request was successful." ;;
          raise (Success success response)
        else
          logger_error
            ("Could not complete request due to status code "
               ++ str_int (status_code response) ++ ": " ++ text response) ;;
          raise (Error error
                   ("Could not complete request due to stauts code "
                      ++ str_int (status_code response) ++ ": " ++ text response))
    | None => ret tt
    end ;;
    match Z_gt_dec num_attempts 1 with
    | left _ =>
        logger_info "Will retry request." ;;
        time_sleep delay ;;
        make_durable_request method url (num_attempts - 1) (delay * 2)
          (Some success_codes) (Some success) (Some error) json
    | right _ =>
        raise (Error error "Unable to complete request.")
    end.
Proof. lia. Qed.

(** ** The two presets *)

(** [requests.post] and [requests.get], the transports of the presets. *)
Variable requests_post requests_get : Method.

Definition make_durable_post (url : string) (num_attempts : Z) (delay : Q)
    (json : Dict) : M Response :=
  response <-
    try_except
      (make_durable_request requests_post url num_attempts delay
         (Some [201; 409]) (Some StoreSuccess) (Some StoreError) (Some json) ;;
       ret None)
      (fun exc =>
         match exc with
         | Success StoreSuccess response => Some (ret (Some response))
         | _ => None
         end) ;;
  match response with
  | Some response => ret response
  | None => raise (UnboundLocalError "response")
  end.

Definition make_durable_get (url : string) (num_attempts : Z) (delay : Q)
    : M Response :=
  response <-
    try_except
      (make_durable_request requests_get url num_attempts delay
         None None None None ;;
       ret None)
      (fun exc =>
         match exc with
         | Success _ response => Some (ret (Some response))
         | _ => None
         end) ;;
  match response with
  | Some response => ret response
  | None => raise (UnboundLocalError "response")
  end.

(** What the executor does once an attempt ended in a retryable outcome,
    [pre] being the events of that attempt. *)
Definition retry_or_raise (method : Method) (url : string) (num_attempts : Z) (delay : Q)
    (success_codes : list Z) (success : success_class) (error : error_class)
    (json : option Dict) (pre : list event) (n : Net) : run unit :=
  if 1 <? num_attempts then
    let r := make_durable_request method url (num_attempts - 1) (delay * 2)
               (Some success_codes) (Some success) (Some error) json n in
    mkRun (value r)
      (pre ++ [ELog INFO "Will retry request."; ESleep delay] ++ emitted r)
      (after r)
  else
    mkRun (Raise (Error error "Unable to complete request.")) pre n.

End Executor.

Arguments mkRun {Net A}.
Arguments value {Net A}.
Arguments emitted {Net A}.
Arguments after {Net A}.
Arguments ret {Net A}.
Arguments raise {Net A}.
Arguments bind {Net A B}.
Arguments try_except {Net A}.
Arguments call {Net}.
Arguments make_durable_request {Net}.
Arguments retry_or_raise {Net}.
Arguments make_durable_post {Net}.
Arguments make_durable_get {Net}.

(** ** Reading the emitted events *)

(** The transport calls made, in order, each with its outcome. *)
Fixpoint calls (evs : list event) : list (kwargs * outcome) :=
  match evs with
  | [] => []
  | ECall kw o :: evs => (kw, o) :: calls evs
  | _ :: evs => calls evs
  end.

(** The durations slept, in order. *)
Fixpoint sleeps (evs : list event) : list Q :=
  match evs with
  | [] => []
  | ESleep d :: evs => d :: sleeps evs
  | _ :: evs => sleeps evs
  end.

(** The keyword arguments the executor builds for one attempt. *)
Definition request_kwargs (url : string) (json : option Dict) : kwargs :=
  if truthy json then mkKwargs url json else mkKwargs url None.

(** A status code in the 5xx range. *)
Definition server_error (code : Z) : bool := (code >=? 500) && (code <? 600).

(** What the [except] clause of the executor catches. *)
Definition network_error (e : exception) : bool :=
  match e with
  | ConnectionError | socket_timeout => true
  | _ => false
  end.

(** The outcomes the executor retries: a connectivity or timeout failure,
    or a 5xx response. *)
Definition retryable (o : outcome) : bool :=
  match o with
  | Returns r => server_error (status_code r)
  | Raises e => network_error e
  end.

(** The outcomes named by the executor's contract: any response, or a
    connectivity or timeout failure. *)
Definition expected (o : outcome) : bool :=
  match o with
  | Returns _ => true
  | Raises e => network_error e
  end.

(** The warning logged for a retryable outcome. *)
Definition warning_of (o : outcome) : string :=
  match o with
  | Returns _ => "Server error."
  | Raises _ => "Network error."
  end.

(** The message of the fatal error raised for a non-success response. *)
Definition client_error_msg (r : Response) : string :=
  "Could not complete request due to stauts code "
    ++ str_int (status_code r) ++ ": " ++ text r.

(** The line logged for a non-success response. *)
Definition client_error_log (r : Response) : string :=
  "Could not complete request due to status code "
    ++ str_int (status_code r) ++ ": " ++ text r.

(** The default success set. *)
Definition default_success_codes : list Z := [200; 201; 202; 204].

(** The delay before the [k]-th retry when the initial delay is [d]. *)
Definition backoff (d : Q) (k : nat) : Q := d * inject_Z (2 ^ Z.of_nat k).

(** The transport calls and sleeps of a run in the order they happen, log
    lines left out. *)
Inductive action := Attempt | Pause.

Fixpoint actions (evs : list event) : list action :=
  match evs with
  | [] => []
  | ECall _ _ :: evs => Attempt :: actions evs
  | ESleep _ :: evs => Pause :: actions evs
  | ELog _ _ :: evs => actions evs
  end.

(** [k] attempts with a pause between each two. *)
Fixpoint alternating (k : nat) : list action :=
  match k with
  | O => []
  | S O => [Attempt]
  | S k' => Attempt :: Pause :: alternating k'
  end.

(** ** Transports for the examples *)

(** A transport that replays a list of outcomes, one per call, and cannot
    connect once the list is used up. *)
Definition scripted : Method (list outcome) :=
  fun _ script =>
    match script with
    | o :: rest => (o, rest)
    | [] => (Raises ConnectionError, [])
    end.

(** The payload and the responses used in the examples. *)
Definition payload : Dict :=
  [("resources",
    JList [JDict [("id", JNum 1)]; JDict [("id", JNum 2)]; JDict [("id", JNum 3)]])].

Definition resource : string := "https://example.com/resource".

Definition response_200 : Response := mkResponse 200 "Cool.".
Definition response_201 : Response := mkResponse 201 "".
Definition response_400 : Response := mkResponse 400 "bad request".
Definition response_409 : Response := mkResponse 409 "already exists".
Definition response_503 : Response := mkResponse 503 "busy".
Definition response_504 : Response := mkResponse 504 "".

(** Three attempts, each with a retryable outcome. *)
Definition run_exhausted : run (list outcome) unit :=
  make_durable_request scripted resource 3 (1 # 2) None None None (Some payload)
    [Returns response_504; Raises ConnectionError; Returns response_503].

(** A 504, then a 201. *)
Definition run_retry_then_success : run (list outcome) unit :=
  make_durable_request scripted resource 3 0 None None None (Some payload)
    [Returns response_504; Returns response_201].

(** A 200 at once, with attempts to spare. *)
Definition run_success : run (list outcome) unit :=
  make_durable_request scripted "http://google.com/" 2 2 (Some [200]) None None None
    [Returns response_200].

(** A 400 at once, with attempts to spare. *)
Definition run_client_error : run (list outcome) unit :=
  make_durable_request scripted resource 3 0 None None None (Some payload)
    [Returns response_400].

(** The store preset meeting a 409. *)
Definition run_store_conflict : run (list outcome) Response :=
  make_durable_post scripted resource 3 1 payload [Returns response_409].

(** No attempts allowed. *)
Definition run_rejected : run (list outcome) unit :=
  make_durable_request scripted "http://example.com" 0 1 None None None None
    [Returns response_200].

(** A 504, then an exception the executor does not know. *)
Definition run_unexpected : run (list outcome) unit :=
  make_durable_request scripted resource 3 0 None None None (Some payload)
    [Returns response_504; Raises (ValueError "")].

(** A success set that holds 503, meeting a 503 and then a 200. *)
Definition run_503_configured : run (list outcome) unit :=
  make_durable_request scripted resource 2 1 (Some [200; 503]) None None None
    [Returns response_503; Returns response_200].

(** A success set that holds 503, meeting a 503 on each of two attempts. *)
Definition run_503_only : run (list outcome) unit :=
  make_durable_request scripted resource 2 1 (Some [503]) None None None
    [Returns response_503; Returns response_503].

(** An empty body supplied. *)
Definition run_empty_body : run (list outcome) unit :=
  make_durable_request scripted resource 1 0 None None None (Some [])
    [Returns response_201].

(** The call shape that follows presence alone: every transport call
    carries exactly the supplied [json]. *)
Definition body_follows_presence (json : option Dict) (evs : list event) : Prop :=
  Forall (fun c => kw_json (fst c) = json) (calls evs).

(** ** More readings of a run *)

(** The last transport call of a run, with its outcome. *)
Fixpoint last_call (evs : list event) : option (kwargs * outcome) :=
  match evs with
  | [] => None
  | ECall kw o :: evs =>
      match last_call evs with
      | Some c => Some c
      | None => Some (kw, o)
      end
  | _ :: evs => last_call evs
  end.

(** How the executor ends on an outcome it does not retry. *)
Definition terminal_value (codes : list Z) (success : success_class)
    (error : error_class) (o : outcome) : result unit :=
  match o with
  | Returns r =>
      if int_in (status_code r) codes then Raise (Success success r)
      else Raise (Error error (client_error_msg r))
  | Raises exc => Raise exc
  end.

(** The time slept in all. *)
Fixpoint total (l : list Q) : Q :=
  match l with
  | [] => 0
  | x :: l => x + total l
  end.

(** ** The other helpers of the module

    [parse_date], [datetime_to_timestamp], [date_string_to_timestamp],
    [parse_args] and [assert_raises].  They meet exceptions of any class
    ([assert_raises] takes the class to expect as an argument), so here an
    exception is an object with its class hierarchy. *)

(** An exception as an [except] clause sees it: the names of its class and
    of the classes that one derives from ([type(e).__mro__]), and its
    argument. *)
Record pyexc := mkExc { exc_mro : list string; exc_arg : string }.

(** [isinstance(e, cls)], what [except cls:] tests. *)
Definition isinstance (e : pyexc) (cls : string) : bool :=
  existsb (String.eqb cls) (exc_mro e).

Definition KeyError (key : string) : pyexc :=
  mkExc ["KeyError"; "LookupError"; "Exception"; "BaseException"; "object"] key.

Definition AssertionError (msg : string) : pyexc :=
  mkExc ["AssertionError"; "Exception"; "BaseException"; "object"] msg.

Definition AttributeError (msg : string) : pyexc :=
  mkExc ["AttributeError"; "Exception"; "BaseException"; "object"] msg.

(** ["%s" % cls] for a class object. *)
Definition str_class (cls : string) : string := "<class '" ++ cls ++ "'>".

(** How a call ends. *)
Inductive completion (A : Type) :=
| Normal (a : A)
| Abrupt (e : pyexc).
Arguments Normal {A} a.
Arguments Abrupt {A} e.

(** A [dict] with string keys, in insertion order. *)
Definition dict (V : Type) := list (string * V).

(** [d.get(k)] *)
Fixpoint dict_get {V} (k : string) (d : dict V) : option V :=
  match d with
  | [] => None
  | (k', v) :: d => if String.eqb k k' then Some v else dict_get k d
  end.

(** [d[k] = v]: the value of a key that is there is replaced in place, a
    new key goes to the end. *)
Fixpoint dict_set {V} (k : string) (v : V) (d : dict V) : dict V :=
  match d with
  | [] => [(k, v)]
  | (k', v') :: d =>
      if String.eqb k k' then (k, v) :: d else (k', v') :: dict_set k v d
  end.

(** [s.split(sep)] for a separator of one character. *)
Fixpoint split (sep : Ascii.ascii) (s : string) : list string :=
  match s with
  | EmptyString => [EmptyString]
  | String c rest =>
      if Ascii.eqb c sep then EmptyString :: split sep rest
      else
        match split sep rest with
        | piece :: pieces => String c piece :: pieces
        | [] => [String c EmptyString]
        end
  end.

(** [sep in s] for a separator of one character. *)
Fixpoint contains (sep : Ascii.ascii) (s : string) : bool :=
  match s with
  | EmptyString => false
  | String c rest => Ascii.eqb c sep || contains sep rest
  end.

(** *** Dates *)

Inductive tz :=
| tzutc
| tzoffset (name : option string) (offset : Z)
| tzlocal.

Record datetime := mkDatetime {
  year : Z;
  month : Z;
  day : Z;
  hour : Z;
  minute : Z;
  second : Z;
  microsecond : Z;
  tzinfo : option tz
}.

(** [int(x)] for a float: towards zero. *)
Definition int (x : Q) : Z := Z.quot (Qnum x) (QDen x).

(** The module's state: the cache [_PARSED_DATES], and what [dateutil]'s
    [parse] sees and has been asked so far. *)
Record dates (Clock : Type) := mkDates {
  PARSED_DATES : dict datetime;
  parsed : list string;
  clock : Clock
}.
Arguments mkDates {Clock}.
Arguments PARSED_DATES {Clock}.
Arguments parsed {Clock}.
Arguments clock {Clock}.

Section Dates.

(** What [dateutil.parser.parse] depends on besides its argument (it fills
    the fields a string leaves out from the current day). *)
Variable Clock : Type.

(** [dateutil.parser.parse]: a datetime, or an exception. *)
Variable parse : string -> Clock -> completion datetime * Clock.

(** [datetime.timestamp()]. *)
Variable timestamp : datetime -> Q.

Definition parse_date (date_string : string) (st : dates Clock)
    : completion datetime * dates Clock :=
  let stored :=
    match dict_get date_string (PARSED_DATES st) with
    | None =>
        match parse date_string (clock st) with
        | (Normal v, c) =>
            (Normal tt,
             mkDates (dict_set date_string v (PARSED_DATES st))
               (parsed st ++ [date_string]) c)
        | (Abrupt e, c) =>
            (Abrupt e, mkDates (PARSED_DATES st) (parsed st ++ [date_string]) c)
        end
    | Some _ => (Normal tt, st)
    end in
  match stored with
  | (Normal _, st') =>
      match dict_get date_string (PARSED_DATES st') with
      | Some v => (Normal v, st')
      | None => (Abrupt (KeyError date_string), st')
      end
  | (Abrupt e, st') => (Abrupt e, st')
  end.

Definition datetime_to_timestamp (dt : datetime) : Z :=
  int (timestamp (mkDatetime (year dt) (month dt) (day dt) 0 0 0 0 (Some tzutc))).

Definition date_string_to_timestamp (date : string) (st : dates Clock)
    : completion Z * dates Clock :=
  match parse_date date st with
  | (Normal parsed_date, st') => (Normal (datetime_to_timestamp parsed_date), st')
  | (Abrupt e, st') => (Abrupt e, st')
  end.

End Dates.

Arguments parse_date {Clock}.
Arguments date_string_to_timestamp {Clock}.

(** *** Command line arguments *)

(** A value of the [configuration] dict: a string (the description), or
    the dict of the arguments, from option strings to keyword arguments. *)
Inductive config_value (ArgData : Type) :=
| VStr (s : string)
| VArgs (args : dict ArgData).
Arguments VStr {ArgData} s.
Arguments VArgs {ArgData} args.

(** What is asked of [argparse], in order. *)
Inductive parser_call (ArgData : Type) :=
| NewParser (description : config_value ArgData)
| AddArgument (flags : list string) (arg_data : ArgData)
| ParseArgs.
Arguments NewParser {ArgData} description.
Arguments AddArgument {ArgData} flags arg_data.
Arguments ParseArgs {ArgData}.

Section ParseArgs.

(** The keyword arguments of one [add_argument], the parser object and
    the parsed namespace. *)
Variables ArgData Parser Namespace : Type.

(** [argparse.ArgumentParser(description=...)] *)
Variable ArgumentParser : config_value ArgData -> Parser.

(** [parser.add_argument], given the flags and the keyword arguments. *)
Variable add_argument :
  list string -> ArgData -> Parser -> completion unit * Parser.

(** [parser.parse_args()] *)
Variable parser_parse_args : Parser -> completion Namespace * Parser.

(** [args.items()] *)
Definition items (v : config_value ArgData) : completion (list (string * ArgData)) :=
  match v with
  | VArgs args => Normal args
  | VStr _ => Abrupt (AttributeError "'str' object has no attribute 'items'")
  end.

(** The loop of [parse_args]: one [add_argument] per item, until one
    raises. *)
Fixpoint add_arguments (its : list (string * ArgData)) (parser : Parser)
    : completion unit * Parser * list (parser_call ArgData) :=
  match its with
  | [] => (Normal tt, parser, [])
  | (arg, arg_data) :: its =>
      match add_argument (split ","%char arg) arg_data parser with
      | (Normal _, parser') =>
          let '(r, parser'', log) := add_arguments its parser' in
          (r, parser'', AddArgument (split ","%char arg) arg_data :: log)
      | (Abrupt e, parser') =>
          (Abrupt e, parser', [AddArgument (split ","%char arg) arg_data])
      end
  end.

Definition parse_args (configuration : dict (config_value ArgData))
    : completion Namespace * list (parser_call ArgData) :=
  match dict_get "description" configuration with
  | None => (Abrupt (KeyError "description"), [])
  | Some description =>
      match dict_get "args" configuration with
      | None => (Abrupt (KeyError "args"), [])
      | Some args =>
          let parser := ArgumentParser description in
          match items args with
          | Abrupt e => (Abrupt e, [NewParser description])
          | Normal its =>
              match add_arguments its parser with
              | (Normal _, parser', log) =>
                  (fst (parser_parse_args parser'),
                   NewParser description :: log ++ [ParseArgs])
              | (Abrupt e, _, log) => (Abrupt e, NewParser description :: log)
              end
          end
      end
  end.

End ParseArgs.

Arguments items {ArgData}.
Arguments add_arguments {ArgData Parser}.
Arguments parse_args {ArgData Parser Namespace}.

(** What [parse_args] asks for one item of [args]. *)
Definition registration {ArgData} (item : string * ArgData) : parser_call ArgData :=
  AddArgument (split ","%char (fst item)) (snd item).

(** *** Testing for an exception *)

Section AssertRaises.

(** The state [fn] works on, its arguments and its result. *)
Variables State Args Kwargs Result : Type.

Definition assert_raises
    (fn : Args -> Kwargs -> State -> completion Result * State)
    (args : Args) (kwargs : Kwargs) (exc : string) (st : State)
    : completion unit * State :=
  match fn args kwargs st with
  | (Abrupt e, st') =>
      if isinstance e exc then (Normal tt, st')
      else if isinstance e "Exception" then
        (Abrupt (AssertionError ("Did not raise " ++ str_class exc)), st')
      else (Abrupt e, st')
  | (Normal _, st') =>
      (Abrupt (AssertionError ("Did not raise " ++ str_class exc)), st')
  end.

End AssertRaises.

Arguments assert_raises {State Args Kwargs Result}.

(** ** Examples for the other helpers *)

(** The fetch preset meeting a 200. *)
Definition run_fetch : run (list outcome) Response :=
  make_durable_get scripted "http://example.com/resource/1" 3 1
    [Returns (mkResponse 200 "Cool")].

(** A builtin exception class that derives from [Exception] directly. *)
Definition builtin_exception (cls : string) (arg : string) : pyexc :=
  mkExc [cls; "Exception"; "BaseException"; "object"] arg.

Definition KeyboardInterrupt : pyexc :=
  mkExc ["KeyboardInterrupt"; "BaseException"; "object"] "".

(** A parser that knows one string, and counts how often it is asked. *)
Definition one_date_parser (s : string) (asked : nat) : completion datetime * nat :=
  if String.eqb s "2020-06-20T14:39:10-0600" then
    (Normal (mkDatetime 2020 6 20 14 39 10 0 (Some (tzoffset None (-21600)))), S asked)
  else
    (Abrupt (mkExc ["ParserError"; "ValueError"; "Exception"; "BaseException"; "object"] s),
     S asked).

(** A stand-in for [datetime.timestamp()]: whole days of 86400 seconds,
    with months of 31 days. *)
Definition rough_timestamp (dt : datetime) : Q :=
  inject_Z ((((year dt - 1970) * 12 + (month dt - 1)) * 31 + (day dt - 1)) * 86400).

Definition no_dates : dates nat := mkDates [] [] 0%nat.

Definition one_date : dates nat :=
  snd (parse_date one_date_parser "2020-06-20T14:39:10-0600" no_dates).

(** A parser object that keeps the option strings it was given and
    refuses one it has already. *)
Definition toy_add_argument (flags : list string) (arg_data : string)
    (registered : list string) : completion unit * list string :=
  if existsb (fun flag => existsb (String.eqb flag) registered) flags then
    (Abrupt (builtin_exception "ArgumentError" "conflicting option string"), registered)
  else (Normal tt, (registered ++ flags)%list).

Definition toy_parse_args (registered : list string)
    : completion (list string) * list string :=
  (Normal registered, registered).

Definition tool_configuration : dict (config_value string) :=
  [("description", VStr "This is what my tool does!");
   ("args", VArgs [("--option,-O", "float"); ("--flag,-F", "store_true")])].

Definition clashing_configuration : dict (config_value string) :=
  [("description", VStr "This is what my tool does!");
   ("args", VArgs [("--flag,-F", "store_true"); ("-F", "float"); ("--other", "int")])].

(** Functions to test [assert_raises] with. *)
Definition oops (_ _ : unit) (st : unit) : completion Z * unit :=
  (Abrupt (builtin_exception "ValueError" ""), st).

Definition oops2 (_ _ : unit) (st : unit) : completion Z * unit :=
  (Abrupt (builtin_exception "TypeError" ""), st).

Definition oops3 (_ _ : unit) (st : unit) : completion Z * unit :=
  (Normal 3, st).

Definition interrupted (_ _ : unit) (st : unit) : completion Z * unit :=
  (Abrupt KeyboardInterrupt, st).

(** ** The attempts of one call, as a relation

    [attempts kw codes success error N d evs v]: a call with [N] attempts
    left and delay [d] emits the events [evs] and ends with [v].  One
    constructor per way an attempt can end. *)
Inductive attempts (kw : kwargs) (codes : list Z) (success : success_class)
    (error : error_class) : Z -> Q -> list event -> result unit -> Prop :=
| attempts_success r N d :
    server_error (status_code r) = false ->
    int_in (status_code r) codes = true ->
    attempts kw codes success error N d
      [ECall kw (Returns r); ELog INFO "Request was successful."]
      (Raise (Success success r))
| attempts_client_error r N d :
    server_error (status_code r) = false ->
    int_in (status_code r) codes = false ->
    attempts kw codes success error N d
      [ECall kw (Returns r); ELog ERROR (client_error_log r)]
      (Raise (Error error (client_error_msg r)))
| attempts_propagate exc N d :
    network_error exc = false ->
    attempts kw codes success error N d [ECall kw (Raises exc)] (Raise exc)
| attempts_exhausted o d :
    retryable o = true ->
    attempts kw codes success error 1 d
      [ECall kw o; ELog WARNING (warning_of o)]
      (Raise (Error error "Unable to complete request."))
| attempts_retry o N d evs v :
    retryable o = true ->
    1 < N ->
    attempts kw codes success error (N - 1) (d * 2) evs v ->
    attempts kw codes success error N d
      (ECall kw o :: ELog WARNING (warning_of o)
         :: ELog INFO "Will retry request." :: ESleep d :: evs)
      v.

#[local] Hint Constructors attempts : core.

Section Properties.

Context {Net : Type}.
Implicit Types (method : Method Net) (n : Net).

Lemma Qltb_false (d : Q) : (0 <= d)%Q -> Qltb d 0 = false.
Proof.
  unfold Qltb, Qle. simpl. intros H. apply Z.ltb_ge. lia.
Qed.

Lemma Qltb_true (d : Q) : (d < 0)%Q -> Qltb d 0 = true.
Proof.
  unfold Qltb, Qlt. simpl. intros H. apply Z.ltb_lt. lia.
Qed.

Lemma list_or_idem {A} (x : option (list A)) (a : A) (l : list A) :
  list_or (Some (list_or x (a :: l))) (a :: l) = list_or x (a :: l).
Proof. destruct x as [[| b k] |]; reflexivity. Qed.

Lemma list_or_nonempty {A} (x : option (list A)) (a : A) (l : list A) :
  list_or x (a :: l) <> [].
Proof. destruct x as [[| b k] |]; discriminate. Qed.

Ltac run_step :=
  cbv beta iota zeta
    delta [bind try_except call logger_warning logger_info logger_error
           time_sleep emit ret raise value emitted after app].

(** One attempt, by the outcome of its transport call. *)
Lemma attempt_unfold method url num_attempts delay success_codes success error json n :
  0 < num_attempts -> (0 <= delay)%Q ->
  make_durable_request method url num_attempts delay success_codes success error json n =
  let kw := request_kwargs url json in
  let codes := list_or success_codes default_success_codes in
  let success := class_or success RequestSuccess in
  let error := class_or error RequestError in
  let retry := retry_or_raise method url num_attempts delay codes success error json in
  match method kw n with
  | (Returns r, n1) =>
      if server_error (status_code r) then
        retry [ECall kw (Returns r); ELog WARNING "Server error."] n1
      else if int_in (status_code r) codes then
        mkRun (Raise (Success success r))
          [ECall kw (Returns r); ELog INFO "Request was successful."] n1
      else
        mkRun (Raise (Error error (client_error_msg r)))
          [ECall kw (Returns r); ELog ERROR (client_error_log r)] n1
  | (Raises exc, n1) =>
      if network_error exc then
        retry [ECall kw (Raises exc); ELog WARNING "Network error."] n1
      else mkRun (Raise exc) [ECall kw (Raises exc)] n1
  end.
Proof.
  intros Hn Hd.
  rewrite make_durable_request_equation_1.
  replace (num_attempts <=? 0) with false by (symmetry; apply Z.leb_gt; lia).
  rewrite (Qltb_false delay Hd).
  cbv zeta.
  unfold request_kwargs, retry_or_raise, server_error, network_error,
    client_error_msg, client_error_log, default_success_codes.
  generalize (make_durable_request method url (num_attempts - 1) (delay * 2)
                (Some (list_or success_codes [200; 201; 202; 204]))
                (Some (class_or success RequestSuccess))
                (Some (class_or error RequestError)) json).
  intros rec.
  assert (Hgt : forall A (a b : A),
             match Z_gt_dec num_attempts 1 with left _ => a | right _ => b end
             = if 1 <? num_attempts then a else b).
  { intros A a b.
    destruct (Z_gt_dec num_attempts 1), (Z.ltb_spec 1 num_attempts);
      (reflexivity || lia). }
  rewrite Hgt.
  destruct (truthy json);
    run_step;
    (match goal with
     | |- context [method ?kw n] => destruct (method kw n) as [[r | exc] n1]
     end);
    try destruct exc;
    run_step;
    try (destruct ((status_code r >=? 500) && (status_code r <? 600)); run_step);
    try (match goal with
         | |- context [int_in ?c ?l] => destruct (int_in c l); run_step
         end);
    try (destruct (1 <? num_attempts); run_step);
    reflexivity.
Qed.

(** Rejected arguments: nothing is emitted and the network is untouched. *)
Lemma rejected_attempts method url num_attempts delay success_codes success error json n :
  num_attempts <= 0 ->
  make_durable_request method url num_attempts delay success_codes success error json n
  = mkRun (Raise (ValueError "The value of `num_attempts` must be greater than 0."))
      [] n.
Proof.
  intros H. rewrite make_durable_request_equation_1.
  replace (num_attempts <=? 0) with true by (symmetry; apply Z.leb_le; lia).
  reflexivity.
Qed.

Lemma rejected_delay method url num_attempts delay success_codes success error json n :
  0 < num_attempts -> (delay < 0)%Q ->
  make_durable_request method url num_attempts delay success_codes success error json n
  = mkRun
      (Raise (ValueError "The value of `delay` must be greater than or equal to 0."))
      [] n.
Proof.
  intros H Hd. rewrite make_durable_request_equation_1.
  replace (num_attempts <=? 0) with false by (symmetry; apply Z.leb_gt; lia).
  rewrite (Qltb_true delay Hd). reflexivity.
Qed.

(** Induction on the number of attempts left, following the recursion. *)
Lemma attempts_left_ind (P : Z -> Prop) :
  (forall N, 0 < N -> (1 < N -> P (N - 1)) -> P N) ->
  forall N, 0 < N -> P N.
Proof.
  intros step N HN.
  assert (H : forall k, (0 <= k) -> forall N, 0 < N <= k + 1 -> P N).
  { intros k Hk. pattern k. apply natlike_ind; [ | | exact Hk ].
    - intros M HM. apply step; [lia | intros; lia].
    - intros x Hx IH M HM. apply step; [lia | intros HM1; apply IH; lia]. }
  apply (H N); lia.
Qed.

Lemma delay_doubles (d : Q) : (0 <= d)%Q -> (0 <= d * 2)%Q.
Proof.
  intros H. apply Qmult_le_0_compat; [exact H | discriminate].
Qed.

(** Every accepted call runs as [attempts] describes. *)
Lemma run_attempts method url json :
  forall N, 0 < N -> forall delay success_codes success error n, (0 <= delay)%Q ->
  attempts (request_kwargs url json)
    (list_or success_codes default_success_codes)
    (class_or success RequestSuccess) (class_or error RequestError)
    N delay
    (emitted (make_durable_request method url N delay success_codes success error json n))
    (value (make_durable_request method url N delay success_codes success error json n)).
Proof.
  intros N HN. pattern N. revert N HN. apply attempts_left_ind.
  intros N HN IH delay success_codes success error n Hd.
  rewrite (attempt_unfold _ _ _ _ _ _ _ _ _ HN Hd). cbv zeta.
  set (kw := request_kwargs url json).
  set (codes := list_or success_codes default_success_codes).
  set (success' := class_or success RequestSuccess).
  set (error' := class_or error RequestError).
  assert (Hretry : forall o n1,
    retryable o = true ->
    let r := retry_or_raise method url N delay codes success' error' json
               [ECall kw o; ELog WARNING (warning_of o)] n1 in
    attempts kw codes success' error' N delay (emitted r) (value r)).
  { intros o n1 Ho. unfold retry_or_raise.
    destruct (Z.ltb_spec 1 N) as [H1 | H1]; cbn [value emitted app].
    - apply attempts_retry; [exact Ho | exact H1 |].
      specialize (IH H1 (delay * 2)%Q (Some codes) (Some success') (Some error')
                    n1 (delay_doubles _ Hd)).
      unfold codes, default_success_codes in IH.
      rewrite list_or_idem in IH. exact IH.
    - replace N with 1 by lia. apply attempts_exhausted. exact Ho. }
  destruct (method kw n) as [[r | exc] n1].
  - destruct (server_error (status_code r)) eqn:Hs.
    + apply (Hretry (Returns r) n1). exact Hs.
    + destruct (int_in (status_code r) codes) eqn:Hin; cbn [value emitted]; auto.
  - destruct (network_error exc) eqn:Hexc.
    + apply (Hretry (Raises exc) n1). exact Hexc.
    + cbn [value emitted]. auto.
Qed.

(** A call is either rejected before anything happens, or accepted and
    run attempt by attempt. *)
Lemma run_cases method url N delay success_codes success error json n :
  let r := make_durable_request method url N delay success_codes success error json n in
  (emitted r = [] /\ after r = n /\ exists msg, value r = Raise (ValueError msg))
  \/
  (0 < N /\ (0 <= delay)%Q /\
   attempts (request_kwargs url json)
     (list_or success_codes default_success_codes)
     (class_or success RequestSuccess) (class_or error RequestError)
     N delay (emitted r) (value r)).
Proof.
  cbv zeta.
  destruct (Z_le_gt_dec N 0) as [HN | HN].
  - left. rewrite rejected_attempts by exact HN. cbn. eauto.
  - destruct (Qlt_le_dec delay 0) as [Hd | Hd].
    + left. rewrite rejected_delay by (lia || exact Hd). cbn. eauto.
    + right. repeat split; [lia | exact Hd | apply run_attempts; [lia | exact Hd]].
Qed.

(** An accepted call starts with a transport call. *)
Lemma attempts_first_call kw codes success error N d evs v :
  attempts kw codes success error N d evs v ->
  exists o rest, evs = ECall kw o :: rest.
Proof. intros H. destruct H; eauto. Qed.

(** When the first transport call returns a response that is neither a
    5xx nor a success, that attempt is the only one. *)
Lemma attempts_first_response kw codes success error N d evs v kw' r :
  attempts kw codes success error N d evs v ->
  hd_error (calls evs) = Some (kw', Returns r) ->
  server_error (status_code r) = false ->
  kw' = kw /\
  if int_in (status_code r) codes then
    evs = [ECall kw (Returns r); ELog INFO "Request was successful."]
    /\ v = Raise (Success success r)
  else
    evs = [ECall kw (Returns r); ELog ERROR (client_error_log r)]
    /\ v = Raise (Error error (client_error_msg r)).
Proof.
  intros H Hhd Hs.
  destruct H as [r0 N d H5 Hin | r0 N d H5 Hin | exc N d Hexc | o d Ho | o N d evs v Ho HN H];
    cbn in Hhd; inversion Hhd; subst; clear Hhd.
  - rewrite Hin. auto.
  - rewrite Hin. auto.
  - cbn in Ho. congruence.
  - cbn in Ho. congruence.
Qed.

(** The first transport call of an accepted call: it is made with the
    keyword arguments of the attempt, at the initial state of the network.
    So "the first call of the run returned [r]" says what the transport
    answers there. *)
Lemma first_call_of_accepted method url N delay success_codes success error json n :
  0 < N -> (0 <= delay)%Q ->
  hd_error (calls (emitted (make_durable_request method url N delay success_codes
                              success error json n)))
  = Some (request_kwargs url json, fst (method (request_kwargs url json) n)).
Proof.
  intros HN Hd. rewrite (attempt_unfold _ _ _ _ _ _ _ _ _ HN Hd). cbv zeta.
  unfold retry_or_raise.
  destruct (method (request_kwargs url json) n) as [[r | exc] n1]; cbn [fst].
  - destruct (server_error (status_code r)); [destruct (1 <? N) |
      destruct (int_in (status_code r) _)]; reflexivity.
  - destruct (network_error exc); [destruct (1 <? N) |]; reflexivity.
Qed.

Lemma backoff_0 (d : Q) : (d == backoff d 0)%Q.
Proof. unfold backoff. cbn. ring. Qed.

Lemma backoff_double (d : Q) (k : nat) : (backoff (d * 2) k == backoff d (S k))%Q.
Proof.
  unfold backoff.
  rewrite Nat2Z.inj_succ, Z.pow_succ_r by lia.
  rewrite inject_Z_mult. change (inject_Z 2) with 2%Q. ring.
Qed.

Lemma Forall2_Qeq_shift (f g : nat -> Q) (l : list Q) :
  (forall k, (f k == g (S k))%Q) ->
  forall m a, Forall2 Qeq l (map f (seq a m)) ->
              Forall2 Qeq l (map g (seq (S a) m)).
Proof.
  intros Hfg m. revert l.
  induction m as [| m IH]; intros l a H; cbn in *; inversion H; subst.
  - constructor.
  - constructor.
    + etransitivity; [eassumption | apply Hfg].
    + apply IH. assumption.
Qed.

(** A run in which every transport call had a retryable outcome. *)
Lemma attempts_all_retryable kw codes success error N d evs v :
  attempts kw codes success error N d evs v ->
  0 < N ->
  Forall (fun c => retryable (snd c) = true) (calls evs) ->
  v = Raise (Error error "Unable to complete request.")
  /\ List.length (calls evs) = Z.to_nat N
  /\ actions evs = alternating (Z.to_nat N)
  /\ Forall2 Qeq (sleeps evs) (map (backoff d) (seq 0 (Z.to_nat N - 1))).
Proof.
  induction 1 as [r N d H5 Hin | r N d H5 Hin | exc N d Hexc | o d Ho
                 | o N d evs v Ho HN H IH];
    intros HN0 Hall; cbn [calls] in Hall.
  - inversion Hall as [| ? ? Hr _]; subst. cbn in Hr. congruence.
  - inversion Hall as [| ? ? Hr _]; subst. cbn in Hr. congruence.
  - inversion Hall as [| ? ? Hr _]; subst. cbn in Hr. congruence.
  - repeat split. cbn. constructor.
  - inversion Hall as [| ? ? _ Hall']; subst.
    destruct (IH ltac:(lia) Hall') as (-> & Hlen & Hact & Hsl).
    assert (Hk : exists k, Z.to_nat N = S (S k) /\ Z.to_nat (N - 1) = S k).
    { exists (Z.to_nat (N - 2)). split; lia. }
    destruct Hk as (k & HkN & HkN1). rewrite HkN1 in Hlen, Hact, Hsl. rewrite HkN.
    repeat split.
    + cbn [calls List.length]. rewrite Hlen. reflexivity.
    + cbn [actions]. rewrite Hact. reflexivity.
    + cbn [sleeps]. replace (S (S k) - 1)%nat with (S k) by lia.
      replace (S k - 1)%nat with k in Hsl by lia.
      cbn [seq map]. constructor; [apply backoff_0 |].
      apply (Forall2_Qeq_shift (backoff (d * 2)) (backoff d));
        [apply backoff_double | exact Hsl].
Qed.

(** A run in which every transport call returned a response or failed to
    connect ends with the success class or with the error class. *)
Lemma attempts_expected kw codes success error N d evs v :
  attempts kw codes success error N d evs v ->
  Forall (fun c => expected (snd c) = true) (calls evs) ->
  (exists r, v = Raise (Success success r) /\ In (kw, Returns r) (calls evs))
  \/ (exists msg, v = Raise (Error error msg)).
Proof.
  induction 1 as [r N d H5 Hin | r N d H5 Hin | exc N d Hexc | o d Ho
                 | o N d evs v Ho HN H IH];
    intros Hall; cbn [calls] in *.
  - left. exists r. split; [reflexivity | left; reflexivity].
  - right. eauto.
  - inversion Hall as [| ? ? Hr _]; subst. cbn in Hr. congruence.
  - right. eauto.
  - inversion Hall as [| ? ? _ Hall']; subst.
    destruct (IH Hall') as [(r & Hv & Hr) | Hv]; [left | right; exact Hv].
    exists r. split; [exact Hv | right; exact Hr].
Qed.

(** Every transport call of a run is made with the same keyword arguments. *)
Lemma attempts_calls_kwargs kw codes success error N d evs v :
  attempts kw codes success error N d evs v ->
  Forall (fun c => fst c = kw) (calls evs).
Proof.
  induction 1; cbn [calls]; repeat constructor; assumption.
Qed.

(** Splitting the events of a run around one of its transport calls. *)
Ltac split_events H pre :=
  destruct pre as [| ? [| ? [| ? [| ? pre]]]];
  cbn [app] in H; inversion H; subst; clear H.

(** A transport exception the [except] clause does not catch ends the run. *)
Lemma attempts_uncaught kw codes success error N d evs v :
  attempts kw codes success error N d evs v ->
  forall (pre : list event) kw' exc post,
    evs = (pre ++ ECall kw' (Raises exc) :: post)%list ->
    network_error exc = false ->
    post = [] /\ v = Raise exc.
Proof.
  induction 1 as [r N d H5 Hin | r N d H5 Hin | exc0 N d Hexc | o d Ho
                 | o N d evs v Ho HN H IH];
    intros pre kw' exc post Heq Hnet.
  - split_events Heq pre.
  - split_events Heq pre.
  - split_events Heq pre. auto.
  - split_events Heq pre. cbn in Ho. congruence.
  - split_events Heq pre.
    + cbn in Ho. congruence.
    + eapply IH; [reflexivity | exact Hnet].
Qed.

(** A 5xx response is followed by a retry or by the final error,
    whatever the success set. *)
Lemma attempts_server_error kw codes success error N d evs v :
  attempts kw codes success error N d evs v ->
  forall (pre : list event) kw' r post,
    evs = (pre ++ ECall kw' (Returns r) :: post)%list ->
    server_error (status_code r) = true ->
    (post = [ELog WARNING "Server error."]
     /\ v = Raise (Error error "Unable to complete request."))
    \/ (exists d' o' post',
          post = ELog WARNING "Server error." :: ELog INFO "Will retry request."
                   :: ESleep d' :: ECall kw o' :: post').
Proof.
  induction 1 as [r0 N d H5 Hin | r0 N d H5 Hin | exc0 N d Hexc | o d Ho
                 | o N d evs v Ho HN H IH];
    intros pre kw' r post Heq Hs.
  - split_events Heq pre. congruence.
  - split_events Heq pre. congruence.
  - split_events Heq pre.
  - split_events Heq pre. left. auto.
  - split_events Heq pre.
    + right. destruct (attempts_first_call _ _ _ _ _ _ _ _ H) as (o' & rest & ->).
      cbn [warning_of]. eauto.
    + eapply IH; [reflexivity | exact Hs].
Qed.

(** The store preset: the executor's outcome with a [StoreSuccess]
    unwrapped into a normal return. *)
Lemma make_durable_post_unfold (requests_post : Method Net) url N delay json n :
  make_durable_post requests_post url N delay json n =
  let r := make_durable_request requests_post url N delay (Some [201; 409])
             (Some StoreSuccess) (Some StoreError) (Some json) n in
  mkRun
    match value r with
    | Return _ => Raise (UnboundLocalError "response")
    | Raise (Success StoreSuccess response) => Return response
    | Raise exc => Raise exc
    end
    (emitted r) (after r).
Proof.
  unfold make_durable_post, bind, try_except, ret, raise. cbv beta zeta.
  destruct (make_durable_request requests_post url N delay (Some [201; 409])
              (Some StoreSuccess) (Some StoreError) (Some json) n)
    as [[[] | exc] evs n1]; cbn [value emitted after].
  - rewrite !app_nil_r. reflexivity.
  - destruct exc as [[] resp | | | | | |]; cbn [value emitted after];
      rewrite ?app_nil_r; reflexivity.
Qed.

(** The first response of a run, when it is not a 5xx, decides the run. *)
Lemma run_first_response method url N delay success_codes success error json n kw r :
  let run := make_durable_request method url N delay success_codes success error json n in
  hd_error (calls (emitted run)) = Some (kw, Returns r) ->
  server_error (status_code r) = false ->
  if int_in (status_code r) (list_or success_codes default_success_codes) then
    emitted run = [ECall kw (Returns r); ELog INFO "Request was successful."]
    /\ value run = Raise (Success (class_or success RequestSuccess) r)
  else
    emitted run = [ECall kw (Returns r); ELog ERROR (client_error_log r)]
    /\ value run = Raise (Error (class_or error RequestError) (client_error_msg r)).
Proof.
  cbv zeta. intros Hhd Hs.
  destruct (run_cases method url N delay success_codes success error json n)
    as [[He _] | (_ & _ & Hrun)].
  - rewrite He in Hhd. discriminate.
  - destruct (attempts_first_response _ _ _ _ _ _ _ _ _ _ Hrun Hhd Hs) as [-> Hcase].
    exact Hcase.
Qed.

(** Only the effective success set matters. *)
Lemma success_codes_effective method url N delay success_codes success error json :
  make_durable_request method url N delay success_codes success error json =
  make_durable_request method url N delay
    (Some (list_or success_codes default_success_codes)) success error json.
Proof.
  rewrite (make_durable_request_equation_1 _ method url N delay success_codes).
  rewrite (make_durable_request_equation_1 _ method url N delay (Some _)).
  cbv zeta. unfold default_success_codes. rewrite list_or_idem. reflexivity.
Qed.

End Properties.





(** ** The claims *)

Section Claims.

Context {Net : Type}.
Implicit Types (method : Method Net) (n : Net).

(** C6: a call with [num_attempts <= 0] or [delay < 0] raises [ValueError]
    at once: no transport call, no sleep, no event at all, and the network
    is left as it was. *)
Theorem invalid_arguments_rejected method url num_attempts delay success_codes
    success error json n :
  num_attempts <= 0 \/ (delay < 0)%Q ->
  let r := make_durable_request method url num_attempts delay success_codes
             success error json n in
  (exists msg, value r = Raise (ValueError msg))
  /\ calls (emitted r) = []
  /\ sleeps (emitted r) = []
  /\ emitted r = []
  /\ after r = n.
Proof.
  intros H. cbv zeta.
  destruct (Z_le_gt_dec num_attempts 0) as [HN | HN].
  - rewrite rejected_attempts by exact HN. cbn. eauto 6.
  - destruct H as [H | H]; [lia |].
    rewrite rejected_delay by (lia || exact H). cbn. eauto 6.
Qed.

(** C3, as the code has it: when the first transport call returns a
    response whose status code is in the configured success set and is not
    a 5xx, the call ends there with the configured success class carrying
    that response: one transport call, no sleep. *)
Theorem first_response_success method url num_attempts delay success_codes
    success error json n kw r :
  let run := make_durable_request method url num_attempts delay success_codes
               success error json n in
  hd_error (calls (emitted run)) = Some (kw, Returns r) ->
  int_in (status_code r) (list_or success_codes default_success_codes) = true ->
  server_error (status_code r) = false ->
  value run = Raise (Success (class_or success RequestSuccess) r)
  /\ calls (emitted run) = [(kw, Returns r)]
  /\ sleeps (emitted run) = [].
Proof.
  cbv zeta. intros Hhd Hin Hs.
  pose proof (run_first_response method url num_attempts delay success_codes
                success error json n kw r Hhd Hs) as Hcase.
  cbv zeta in Hcase. rewrite Hin in Hcase. destruct Hcase as [-> ->]. auto.
Qed.

(** C4: when the first transport call returns a response whose status code
    is neither a 5xx nor in the configured success set, the call ends there
    with the configured error class, whose message holds the status code
    and the body: one transport call, no sleep, whatever the budget. *)
Theorem first_response_client_error method url num_attempts delay success_codes
    success error json n kw r :
  let run := make_durable_request method url num_attempts delay success_codes
               success error json n in
  hd_error (calls (emitted run)) = Some (kw, Returns r) ->
  server_error (status_code r) = false ->
  int_in (status_code r) (list_or success_codes default_success_codes) = false ->
  value run =
    Raise (Error (class_or error RequestError)
             ("Could not complete request due to stauts code "
                ++ str_int (status_code r) ++ ": " ++ text r))
  /\ calls (emitted run) = [(kw, Returns r)]
  /\ sleeps (emitted run) = [].
Proof.
  cbv zeta. intros Hhd Hs Hin.
  pose proof (run_first_response method url num_attempts delay success_codes
                success error json n kw r Hhd Hs) as Hcase.
  cbv zeta in Hcase. rewrite Hin in Hcase. destruct Hcase as [-> ->]. auto.
Qed.

(** C1: with [num_attempts = N > 0] and [delay = d >= 0], if every
    transport call of the run has a retryable outcome (a connectivity or
    timeout failure, or a 5xx response), the run makes exactly [N] calls
    with a sleep between each two, [N - 1] sleeps of [d], [2d], [4d], ...,
    and raises the configured error class with the fixed message, which
    holds nothing of the last outcome. *)
Theorem retries_exhausted method url num_attempts delay success_codes
    success error json n :
  let run := make_durable_request method url num_attempts delay success_codes
               success error json n in
  0 < num_attempts -> (0 <= delay)%Q ->
  Forall (fun c => retryable (snd c) = true) (calls (emitted run)) ->
  value run = Raise (Error (class_or error RequestError) "Unable to complete request.")
  /\ List.length (calls (emitted run)) = Z.to_nat num_attempts
  /\ List.length (sleeps (emitted run)) = (Z.to_nat num_attempts - 1)%nat
  /\ actions (emitted run) = alternating (Z.to_nat num_attempts)
  /\ Forall2 Qeq (sleeps (emitted run))
       (map (backoff delay) (seq 0 (Z.to_nat num_attempts - 1))).
Proof.
  cbv zeta. intros HN Hd Hall.
  destruct (attempts_all_retryable _ _ _ _ _ _ _ _
              (run_attempts method url json _ HN delay success_codes success error n Hd)
              HN Hall) as (Hv & Hlen & Hact & Hsl).
  repeat split; try assumption.
  rewrite (Forall2_length Hsl), length_map, length_seq. reflexivity.
Qed.

(** C2: with [num_attempts > 0] and [delay >= 0], if every transport call
    of the run returns a response or fails to connect, the run never
    returns normally: it raises the configured success class carrying a
    response the transport returned, or the configured error class. *)
Theorem always_raises method url num_attempts delay success_codes
    success error json n :
  let run := make_durable_request method url num_attempts delay success_codes
               success error json n in
  0 < num_attempts -> (0 <= delay)%Q ->
  Forall (fun c => expected (snd c) = true) (calls (emitted run)) ->
  (forall u, value run <> Return u)
  /\ ((exists r kw, value run = Raise (Success (class_or success RequestSuccess) r)
                   /\ In (kw, Returns r) (calls (emitted run)))
      \/ (exists msg, value run = Raise (Error (class_or error RequestError) msg))).
Proof.
  cbv zeta. intros HN Hd Hall.
  destruct (attempts_expected _ _ _ _ _ _ _ _
              (run_attempts method url json _ HN delay success_codes success error n Hd)
              Hall) as [(r & Hv & Hin) | (msg & Hv)].
  - split; [intros u; rewrite Hv; discriminate |]. left. eauto.
  - split; [intros u; rewrite Hv; discriminate |]. right. eauto.
Qed.

(** C5: the store preset runs the executor with the success set
    [{201, 409}].  When the first transport call returns a 201 or a 409,
    [make_durable_post] returns that response to its caller after one
    call and no sleep; any other status outside the 5xx range makes it
    raise [StoreError]. *)
Theorem store_success_returned (requests_post : Method Net) url num_attempts
    delay json n kw r :
  let run := make_durable_post requests_post url num_attempts delay json n in
  hd_error (calls (emitted run)) = Some (kw, Returns r) ->
  (status_code r = 201 \/ status_code r = 409 ->
   value run = Return r
   /\ calls (emitted run) = [(kw, Returns r)]
   /\ sleeps (emitted run) = [])
  /\ (status_code r <> 201 -> status_code r <> 409 ->
      server_error (status_code r) = false ->
      value run =
        Raise (Error StoreError
                 ("Could not complete request due to stauts code "
                    ++ str_int (status_code r) ++ ": " ++ text r))).
Proof.
  cbv zeta. rewrite make_durable_post_unfold. cbv zeta. cbn [value emitted].
  intros Hhd.
  split.
  - intros Hst.
    assert (Hs : server_error (status_code r) = false)
      by (destruct Hst as [-> | ->]; reflexivity).
    pose proof (run_first_response requests_post url num_attempts delay
                  (Some [201; 409]) (Some StoreSuccess) (Some StoreError) (Some json)
                  n kw r Hhd Hs) as Hcase.
    cbv zeta in Hcase.
    replace (int_in (status_code r) (list_or (Some [201; 409]) default_success_codes))
      with true in Hcase by (destruct Hst as [-> | ->]; reflexivity).
    destruct Hcase as [-> ->]. auto.
  - intros H201 H409 H5.
    pose proof (run_first_response requests_post url num_attempts delay
                  (Some [201; 409]) (Some StoreSuccess) (Some StoreError) (Some json)
                  n kw r Hhd H5) as Hcase.
    cbv zeta in Hcase.
    replace (int_in (status_code r) (list_or (Some [201; 409]) default_success_codes))
      with false in Hcase.
    + destruct Hcase as [_ ->]. reflexivity.
    + cbn. destruct (Z.eqb_spec (status_code r) 201); [contradiction |].
      destruct (Z.eqb_spec (status_code r) 409); [contradiction | reflexivity].
Qed.

(** C7, as the code has it: every transport call of a run is made to
    [url], and carries the body exactly when the supplied body is truthy,
    that is present and not empty; a missing body and an empty one both
    give a call without body. *)
Theorem body_sent_when_truthy method url num_attempts delay success_codes
    success error json n :
  Forall
    (fun c =>
       kw_url (fst c) = url
       /\ kw_json (fst c) = match json with
                            | Some (_ :: _) => json
                            | _ => None
                            end)
    (calls (emitted (make_durable_request method url num_attempts delay
                       success_codes success error json n))).
Proof.
  destruct (run_cases method url num_attempts delay success_codes success error json n)
    as [[He _] | (_ & _ & Hrun)].
  - rewrite He. constructor.
  - apply attempts_calls_kwargs in Hrun.
    eapply Forall_impl; [| exact Hrun].
    intros c ->. unfold request_kwargs, truthy.
    destruct json as [[| p d] |]; cbn; auto.
Qed.

(** C8: whenever a transport call of a run raises an exception that is
    neither a connection error nor a socket timeout, the run ends there
    with that very exception: nothing is logged, no sleep and no further
    call follow. *)
Theorem unexpected_exception_propagates method url num_attempts delay
    success_codes success error json n (pre : list event) kw exc post :
  let run := make_durable_request method url num_attempts delay success_codes
               success error json n in
  emitted run = (pre ++ ECall kw (Raises exc) :: post)%list ->
  network_error exc = false ->
  value run = Raise exc /\ post = [].
Proof.
  cbv zeta. intros Heq Hnet.
  destruct (run_cases method url num_attempts delay success_codes success error json n)
    as [[He _] | (_ & _ & Hrun)].
  - rewrite He in Heq. destruct pre; discriminate.
  - destruct (attempts_uncaught _ _ _ _ _ _ _ _ Hrun _ _ _ _ Heq Hnet). auto.
Qed.

(** C9: whenever a transport call of a run returns a 5xx response whose
    status code is in the configured success set, it is handled as a
    server error all the same: either it was the last attempt and the run
    raises the configured error class, or the executor logs, sleeps and
    calls the transport again.  That response never ends the run with
    success. *)
Theorem server_error_before_success method url num_attempts delay success_codes
    success error json n (pre : list event) kw r post :
  let run := make_durable_request method url num_attempts delay success_codes
               success error json n in
  emitted run = (pre ++ ECall kw (Returns r) :: post)%list ->
  server_error (status_code r) = true ->
  int_in (status_code r) (list_or success_codes default_success_codes) = true ->
  (post = [ELog WARNING "Server error."]
   /\ value run =
        Raise (Error (class_or error RequestError) "Unable to complete request."))
  \/ (exists d' kw' o' post',
        post = ELog WARNING "Server error." :: ELog INFO "Will retry request."
                 :: ESleep d' :: ECall kw' o' :: post').
Proof.
  cbv zeta. intros Heq Hs _.
  destruct (run_cases method url num_attempts delay success_codes success error json n)
    as [[He _] | (_ & _ & Hrun)].
  - rewrite He in Heq. destruct pre; discriminate.
  - destruct (attempts_server_error _ _ _ _ _ _ _ _ Hrun _ _ _ _ Heq Hs)
      as [H | (d' & o' & post' & H)]; [left; exact H | right; eauto].
Qed.

(** C10: an empty [success_codes] list behaves as the default set
    [[200, 201, 202, 204]], and so does a missing one; whatever is passed,
    the set in force is not empty. *)
Theorem empty_success_codes_is_default method url num_attempts delay
    success error json n :
  make_durable_request method url num_attempts delay (Some []) success error json n
  = make_durable_request method url num_attempts delay (Some [200; 201; 202; 204])
      success error json n
  /\ make_durable_request method url num_attempts delay (Some []) success error json n
     = make_durable_request method url num_attempts delay None success error json n
  /\ forall success_codes,
       exists codes,
         codes <> []
         /\ make_durable_request method url num_attempts delay success_codes
              success error json n
            = make_durable_request method url num_attempts delay (Some codes)
                success error json n.
Proof.
  split; [| split].
  - rewrite (success_codes_effective method url num_attempts delay (Some [])).
    reflexivity.
  - rewrite (success_codes_effective method url num_attempts delay (Some [])).
    rewrite (success_codes_effective method url num_attempts delay None).
    reflexivity.
  - intros success_codes.
    exists (list_or success_codes default_success_codes). split.
    + apply list_or_nonempty.
    + rewrite (success_codes_effective method url num_attempts delay success_codes).
      reflexivity.
Qed.

End Claims.



(** ** The claims on concrete runs *)

Lemma invalid_arguments_rejected_witness :
  (0 <= 0 \/ (1 < 0)%Q)
  /\ (exists msg, value run_rejected = Raise (ValueError msg))
  /\ calls (emitted run_rejected) = []
  /\ sleeps (emitted run_rejected) = []
  /\ emitted run_rejected = []
  /\ after run_rejected = [Returns response_200].
Proof.
  split; [left; lia |].
  unfold run_rejected. apply invalid_arguments_rejected. left. lia.
Defined.

Lemma retries_exhausted_witness :
  Forall (fun c => retryable (snd c) = true) (calls (emitted run_exhausted))
  /\ value run_exhausted = Raise (Error RequestError "Unable to complete request.")
  /\ List.length (calls (emitted run_exhausted)) = 3%nat
  /\ List.length (sleeps (emitted run_exhausted)) = 2%nat
  /\ actions (emitted run_exhausted) = [Attempt; Pause; Attempt; Pause; Attempt]
  /\ Forall2 Qeq (sleeps (emitted run_exhausted)) [backoff (1 # 2) 0; backoff (1 # 2) 1].
Proof.
  assert (Hall : Forall (fun c => retryable (snd c) = true)
                   (calls (emitted run_exhausted)))
    by (vm_compute; repeat constructor).
  split; [exact Hall |].
  unfold run_exhausted in *.
  apply (retries_exhausted scripted resource 3 (1 # 2) None None None (Some payload)
           [Returns response_504; Raises ConnectionError; Returns response_503]);
    [lia | discriminate | exact Hall].
Defined.

Lemma always_raises_witness :
  Forall (fun c => expected (snd c) = true) (calls (emitted run_retry_then_success))
  /\ (forall u, value run_retry_then_success <> Return u)
  /\ ((exists r kw, value run_retry_then_success = Raise (Success RequestSuccess r)
                    /\ In (kw, Returns r) (calls (emitted run_retry_then_success)))
      \/ (exists msg, value run_retry_then_success = Raise (Error RequestError msg))).
Proof.
  assert (Hall : Forall (fun c => expected (snd c) = true)
                   (calls (emitted run_retry_then_success)))
    by (vm_compute; repeat constructor).
  split; [exact Hall |].
  unfold run_retry_then_success in *.
  apply (always_raises scripted resource 3 0 None None None (Some payload)
           [Returns response_504; Returns response_201]);
    [lia | discriminate | exact Hall].
Defined.

Lemma first_response_success_witness :
  hd_error (calls (emitted run_success))
  = Some (mkKwargs "http://google.com/" None, Returns response_200)
  /\ value run_success = Raise (Success RequestSuccess response_200)
  /\ calls (emitted run_success)
     = [(mkKwargs "http://google.com/" None, Returns response_200)]
  /\ sleeps (emitted run_success) = [].
Proof.
  split; [reflexivity |].
  unfold run_success.
  apply (first_response_success scripted "http://google.com/" 2 2 (Some [200])
           None None None [Returns response_200]
           (mkKwargs "http://google.com/" None) response_200);
    reflexivity.
Defined.

(** C3 as worded fails: a 503 in the success set, met on the first call,
    is retried and the run ends with the error class after two calls and
    a sleep. *)
Lemma first_response_success_counterexample :
  hd_error (calls (emitted run_503_only))
  = Some (mkKwargs resource None, Returns response_503)
  /\ int_in (status_code response_503) (list_or (Some [503]) default_success_codes)
     = true
  /\ value run_503_only <> Raise (Success RequestSuccess response_503)
  /\ List.length (calls (emitted run_503_only)) = 2%nat
  /\ sleeps (emitted run_503_only) = [1%Q].
Proof.
  repeat split; try reflexivity. vm_compute. discriminate.
Qed.

Lemma first_response_client_error_witness :
  hd_error (calls (emitted run_client_error))
  = Some (mkKwargs resource (Some payload), Returns response_400)
  /\ value run_client_error
     = Raise (Error RequestError
                "Could not complete request due to stauts code 400: bad request")
  /\ calls (emitted run_client_error)
     = [(mkKwargs resource (Some payload), Returns response_400)]
  /\ sleeps (emitted run_client_error) = [].
Proof.
  split; [reflexivity |].
  unfold run_client_error.
  apply (first_response_client_error scripted resource 3 0 None None None
           (Some payload) [Returns response_400]
           (mkKwargs resource (Some payload)) response_400);
    reflexivity.
Defined.

Lemma store_success_returned_witness :
  hd_error (calls (emitted run_store_conflict))
  = Some (mkKwargs resource (Some payload), Returns response_409)
  /\ (status_code response_409 = 201 \/ status_code response_409 = 409)
  /\ value run_store_conflict = Return response_409
  /\ calls (emitted run_store_conflict)
     = [(mkKwargs resource (Some payload), Returns response_409)]
  /\ sleeps (emitted run_store_conflict) = [].
Proof.
  split; [reflexivity |]. split; [right; reflexivity |].
  unfold run_store_conflict.
  apply (store_success_returned scripted resource 3 1 payload
           [Returns response_409] (mkKwargs resource (Some payload)) response_409);
    [reflexivity | right; reflexivity].
Defined.

(** C7 as worded fails: an empty body was supplied, and the transport is
    called without a body. *)
Lemma body_sent_when_truthy_counterexample :
  calls (emitted run_empty_body) = [(mkKwargs resource None, Returns response_201)]
  /\ ~ body_follows_presence (Some []) (emitted run_empty_body).
Proof.
  split; [reflexivity |].
  unfold body_follows_presence. intros H.
  vm_compute in H. inversion H as [| ? ? Hhd _]. discriminate Hhd.
Qed.

Lemma unexpected_exception_propagates_witness :
  emitted run_unexpected
  = ([ECall (mkKwargs resource (Some payload)) (Returns response_504);
      ELog WARNING "Server error."; ELog INFO "Will retry request."; ESleep 0]
       ++ ECall (mkKwargs resource (Some payload)) (Raises (ValueError "")) :: [])%list
  /\ network_error (ValueError "") = false
  /\ value run_unexpected = Raise (ValueError "")
  /\ @nil event = [].
Proof.
  split; [reflexivity |]. split; [reflexivity |].
  unfold run_unexpected.
  apply (unexpected_exception_propagates scripted resource 3 0 None None None
           (Some payload) [Returns response_504; Raises (ValueError "")]
           [ECall (mkKwargs resource (Some payload)) (Returns response_504);
            ELog WARNING "Server error."; ELog INFO "Will retry request."; ESleep 0]
           (mkKwargs resource (Some payload)) (ValueError "") []);
    reflexivity.
Defined.

Lemma server_error_before_success_witness :
  emitted run_503_configured
  = ([] ++ ECall (mkKwargs resource None) (Returns response_503)
        :: [ELog WARNING "Server error."; ELog INFO "Will retry request."; ESleep 1;
            ECall (mkKwargs resource None) (Returns response_200);
            ELog INFO "Request was successful."])%list
  /\ server_error (status_code response_503) = true
  /\ int_in (status_code response_503) (list_or (Some [200; 503]) default_success_codes)
     = true
  /\ (([ELog WARNING "Server error."; ELog INFO "Will retry request."; ESleep 1;
        ECall (mkKwargs resource None) (Returns response_200);
        ELog INFO "Request was successful."] = [ELog WARNING "Server error."]
       /\ value run_503_configured
          = Raise (Error RequestError "Unable to complete request."))
      \/ (exists d' kw' o' post',
            [ELog WARNING "Server error."; ELog INFO "Will retry request."; ESleep 1;
             ECall (mkKwargs resource None) (Returns response_200);
             ELog INFO "Request was successful."]
            = ELog WARNING "Server error." :: ELog INFO "Will retry request."
                :: ESleep d' :: ECall kw' o' :: post')).
Proof.
  split; [reflexivity |]. split; [reflexivity |]. split; [reflexivity |].
  unfold run_503_configured.
  apply (server_error_before_success scripted resource 2 1 (Some [200; 503])
           None None None [Returns response_503; Returns response_200] []
           (mkKwargs resource None) response_503
           [ELog WARNING "Server error."; ELog INFO "Will retry request."; ESleep 1;
            ECall (mkKwargs resource None) (Returns response_200);
            ELog INFO "Request was successful."]);
    reflexivity.
Defined.

(** ** Further properties of the executor *)

Section ExecutorProperties.

Context {Net : Type}.
Implicit Types (method : Method Net) (n : Net).

Lemma attempts_last_call kw codes success error N d evs v :
  attempts kw codes success error N d evs v ->
  exists o, last_call evs = Some (kw, o).
Proof.
  induction 1 as [r N d H5 Hin | r N d H5 Hin | exc N d Hexc | o d Ho
                 | o N d evs v Ho HN H IH]; cbn; eauto.
  destruct IH as [o' ->]. eauto.
Qed.

(** The shape of any accepted run: at most [N] calls, a sleep between
    each two, the [k]-th sleep being [d * 2^k]. *)
Lemma attempts_schedule kw codes success error N d evs v :
  attempts kw codes success error N d evs v ->
  0 < N ->
  (1 <= List.length (calls evs) <= Z.to_nat N)%nat
  /\ actions evs = alternating (List.length (calls evs))
  /\ Forall2 Qeq (sleeps evs)
       (map (backoff d) (seq 0 (List.length (calls evs) - 1))).
Proof.
  induction 1 as [r N d H5 Hin | r N d H5 Hin | exc N d Hexc | o d Ho
                 | o N d evs v Ho HN H IH];
    intros HN0; cbn [calls sleeps actions List.length].
  1-4: repeat split; try lia; cbn; constructor.
  destruct (IH ltac:(lia)) as ((Hlo & Hhi) & Hact & Hsl).
  destruct (List.length (calls evs)) as [| k] eqn:Hk; [lia |].
  repeat split; try lia.
  - rewrite Hact. reflexivity.
  - cbn [Nat.sub] in *. rewrite Nat.sub_0_r in *.
    cbn [seq map]. constructor; [apply backoff_0 |].
    apply (Forall2_Qeq_shift (backoff (d * 2)) (backoff d));
      [apply backoff_double | exact Hsl].
Qed.

(** Only the last call of a run can have an outcome that is not retried. *)
Lemma attempts_retried kw codes success error N d evs v :
  attempts kw codes success error N d evs v ->
  Forall (fun c => retryable (snd c) = true) (removelast (calls evs)).
Proof.
  induction 1 as [r N d H5 Hin | r N d H5 Hin | exc N d Hexc | o d Ho
                 | o N d evs v Ho HN H IH];
    cbn [calls]; try (cbn; constructor).
  destruct (attempts_first_call _ _ _ _ _ _ _ _ H) as (o' & rest & ->).
  cbn [calls] in *. cbn [removelast] in *.
  constructor; [exact Ho | exact IH].
Qed.

(** The last call decides how the run ends. *)
Lemma attempts_ending kw codes success error N d evs v kw' o :
  attempts kw codes success error N d evs v ->
  0 < N ->
  last_call evs = Some (kw', o) ->
  if retryable o then
    v = Raise (Error error "Unable to complete request.")
    /\ List.length (calls evs) = Z.to_nat N
  else v = terminal_value codes success error o.
Proof.
  induction 1 as [r N d H5 Hin | r N d H5 Hin | exc N d Hexc | o0 d Ho
                 | o0 N d evs v Ho HN H IH];
    intros HN0 Hlast; cbn [last_call calls List.length] in *.
  - inversion Hlast; subst. cbn. rewrite H5, Hin. reflexivity.
  - inversion Hlast; subst. cbn. rewrite H5, Hin. reflexivity.
  - inversion Hlast; subst. cbn. rewrite Hexc. reflexivity.
  - inversion Hlast; subst. rewrite Ho. auto.
  - destruct (attempts_last_call _ _ _ _ _ _ _ _ H) as [o' Ho'].
    rewrite Ho' in Hlast. inversion Hlast; subst.
    specialize (IH ltac:(lia) Ho').
    destruct (retryable o); [| exact IH].
    destruct IH as [-> Hlen]. split; [reflexivity | lia].
Qed.

Lemma backoff_nonneg (d : Q) (k : nat) : (0 <= d)%Q -> (0 <= backoff d k)%Q.
Proof.
  intros Hd. unfold backoff. apply Qmult_le_0_compat; [exact Hd |].
  change 0%Q with (inject_Z 0). rewrite <- Zle_Qle. apply Z.pow_nonneg. lia.
Qed.

Lemma sleeps_nonneg (d : Q) (l : list Q) (a m : nat) :
  (0 <= d)%Q ->
  Forall2 Qeq l (map (backoff d) (seq a m)) ->
  Forall (fun s => (0 <= s)%Q) l.
Proof.
  intros Hd. revert l a.
  induction m as [| m IH]; intros l a H; cbn in H; inversion H; subst;
    constructor.
  - match goal with Hx : (_ == backoff d a)%Q |- _ => rewrite Hx end.
    apply backoff_nonneg. exact Hd.
  - eapply IH. eassumption.
Qed.

(** The time slept in all, after [k] sleeps that start at [d]. *)
Lemma total_backoff (d : Q) :
  forall m a l,
    Forall2 Qeq l (map (backoff d) (seq a m)) ->
    (total l == d * inject_Z (2 ^ Z.of_nat a) * (inject_Z (2 ^ Z.of_nat m) - 1))%Q.
Proof.
  induction m as [| m IH]; intros a l H; cbn [seq map] in H; inversion H; subst;
    cbn [total].
  - cbn. ring.
  - match goal with Hx : (_ == backoff d a)%Q |- _ => rewrite Hx end.
    match goal with Hl : Forall2 Qeq _ (map _ (seq (S a) m)) |- _ =>
      rewrite (IH _ _ Hl) end.
    unfold backoff.
    rewrite !Nat2Z.inj_succ, !Z.pow_succ_r by lia.
    rewrite !inject_Z_mult. change (inject_Z 2) with 2%Q. ring.
Qed.

(** Accepted or not, case by case. *)
Lemma accepted_dec (N : Z) (d : Q) :
  {N <= 0} + {0 < N /\ (d < 0)%Q} + {0 < N /\ (0 <= d)%Q}.
Proof.
  destruct (Z_le_gt_dec N 0) as [HN | HN]; [left; left; exact HN |].
  destruct (Qlt_le_dec d 0) as [Hd | Hd];
    [left; right | right]; split; (lia || exact Hd).
Qed.

(** X1: the transport is called if and only if the arguments are valid,
    and never more than [num_attempts] times, whatever it answers. *)
Theorem transport_called_iff_accepted method url num_attempts delay success_codes
    success error json n :
  let run := make_durable_request method url num_attempts delay success_codes
               success error json n in
  (calls (emitted run) <> [] <-> 0 < num_attempts /\ (0 <= delay)%Q)
  /\ (List.length (calls (emitted run)) <= Z.to_nat num_attempts)%nat.
Proof.
  cbv zeta.
  destruct (accepted_dec num_attempts delay) as [[HN | [HN Hd]] | [HN Hd]].
  - rewrite rejected_attempts by exact HN. cbn. split; [| lia].
    split; [congruence | lia].
  - rewrite rejected_delay by assumption. cbn. split; [| lia].
    split; [congruence |]. intros [_ H]. exfalso. exact (Qlt_not_le _ _ Hd H).
  - pose proof (run_attempts method url json _ HN delay success_codes success
                  error n Hd) as Hrun.
    destruct (attempts_schedule _ _ _ _ _ _ _ _ Hrun HN) as ((Hlo & Hhi) & _).
    split; [| exact Hhi]. split; [auto |].
    intros _ Hnil. rewrite Hnil in Hlo. cbn in Hlo. lia.
Qed.

(** X2: in every run, whatever the transport answers, calls and sleeps
    alternate, so there is one sleep less than there are calls, and the
    [k]-th sleep lasts [delay * 2^k]. *)
Theorem sleep_schedule method url num_attempts delay success_codes
    success error json n :
  let run := make_durable_request method url num_attempts delay success_codes
               success error json n in
  actions (emitted run) = alternating (List.length (calls (emitted run)))
  /\ List.length (sleeps (emitted run)) = (List.length (calls (emitted run)) - 1)%nat
  /\ Forall2 Qeq (sleeps (emitted run))
       (map (backoff delay) (seq 0 (List.length (calls (emitted run)) - 1))).
Proof.
  cbv zeta.
  destruct (run_cases method url num_attempts delay success_codes success error json n)
    as [[He _] | (HN & _ & Hrun)].
  - rewrite He. cbn. repeat split. constructor.
  - destruct (attempts_schedule _ _ _ _ _ _ _ _ Hrun HN) as (_ & Hact & Hsl).
    repeat split; try assumption.
    rewrite (Forall2_length Hsl), length_map, length_seq. reflexivity.
Qed.

(** X3: a further attempt is made only after a retryable outcome: every
    transport call of a run but the last had one. *)
Theorem retried_only_when_retryable method url num_attempts delay success_codes
    success error json n :
  Forall (fun c => retryable (snd c) = true)
    (removelast (calls (emitted (make_durable_request method url num_attempts delay
                                   success_codes success error json n)))).
Proof.
  destruct (run_cases method url num_attempts delay success_codes success error json n)
    as [[He _] | (_ & _ & Hrun)].
  - rewrite He. constructor.
  - exact (attempts_retried _ _ _ _ _ _ _ _ Hrun).
Qed.

(** X4: when the last transport call of a run has a retryable outcome, the
    whole budget was spent: the run made exactly [num_attempts] calls and
    raises the configured error class with the fixed message. *)
Theorem exhaustion_spends_budget method url num_attempts delay success_codes
    success error json n kw o :
  let run := make_durable_request method url num_attempts delay success_codes
               success error json n in
  last_call (emitted run) = Some (kw, o) ->
  retryable o = true ->
  value run = Raise (Error (class_or error RequestError) "Unable to complete request.")
  /\ List.length (calls (emitted run)) = Z.to_nat num_attempts.
Proof.
  cbv zeta. intros Hlast Ho.
  destruct (run_cases method url num_attempts delay success_codes success error json n)
    as [[He _] | (HN & _ & Hrun)].
  - rewrite He in Hlast. discriminate.
  - pose proof (attempts_ending _ _ _ _ _ _ _ _ _ _ Hrun HN Hlast) as H.
    rewrite Ho in H. exact H.
Qed.

(** X5: when the last transport call of a run, on whichever attempt, has
    an outcome that is not retried, that outcome decides the result: a
    response in the success set gives the success class carrying it, any
    other response the error class with its status and body, and an
    exception is passed on as it is. *)
Theorem ending_on_last_outcome method url num_attempts delay success_codes
    success error json n kw o :
  let run := make_durable_request method url num_attempts delay success_codes
               success error json n in
  last_call (emitted run) = Some (kw, o) ->
  retryable o = false ->
  match o with
  | Returns r =>
      if int_in (status_code r) (list_or success_codes default_success_codes) then
        value run = Raise (Success (class_or success RequestSuccess) r)
      else
        value run =
          Raise (Error (class_or error RequestError)
                   ("Could not complete request due to stauts code "
                      ++ str_int (status_code r) ++ ": " ++ text r))
  | Raises exc => value run = Raise exc
  end.
Proof.
  cbv zeta. intros Hlast Ho.
  destruct (run_cases method url num_attempts delay success_codes success error json n)
    as [[He _] | (HN & _ & Hrun)].
  - rewrite He in Hlast. discriminate.
  - pose proof (attempts_ending _ _ _ _ _ _ _ _ _ _ Hrun HN Hlast) as H.
    rewrite Ho in H. rewrite H. unfold terminal_value.
    destruct o as [r | exc]; [| reflexivity].
    destruct (int_in (status_code r) _); reflexivity.
Qed.

(** X6: no sleep of a run is negative. *)
Theorem sleeps_never_negative method url num_attempts delay success_codes
    success error json n :
  Forall (fun s => (0 <= s)%Q)
    (sleeps (emitted (make_durable_request method url num_attempts delay
                        success_codes success error json n))).
Proof.
  destruct (run_cases method url num_attempts delay success_codes success error json n)
    as [[He _] | (HN & Hd & Hrun)].
  - rewrite He. constructor.
  - destruct (attempts_schedule _ _ _ _ _ _ _ _ Hrun HN) as (_ & _ & Hsl).
    exact (sleeps_nonneg _ _ _ _ Hd Hsl).
Qed.

(** X7: with a delay [d >= 0], a run that sleeps [k] times sleeps
    [d * (2^k - 1)] in all, which is at most [d * (2^(N-1) - 1)] for
    [N = num_attempts]. *)
Theorem total_sleep_bounded method url num_attempts delay success_codes
    success error json n :
  let run := make_durable_request method url num_attempts delay success_codes
               success error json n in
  (0 <= delay)%Q ->
  (total (sleeps (emitted run))
   == delay * (inject_Z (2 ^ Z.of_nat (List.length (sleeps (emitted run)))) - 1))%Q
  /\ (total (sleeps (emitted run))
      <= delay * (inject_Z (2 ^ Z.of_nat (Z.to_nat num_attempts - 1)) - 1))%Q.
Proof.
  cbv zeta. intros Hd.
  destruct (run_cases method url num_attempts delay success_codes success error json n)
    as [[He _] | (HN & _ & Hrun)].
  - rewrite He. cbn [sleeps total List.length]. split; [cbn; ring |].
    apply Qmult_le_0_compat; [exact Hd |].
    unfold Qminus. rewrite <- Qle_minus_iff.
    change 1%Q with (inject_Z 1). rewrite <- Zle_Qle.
    assert (0 < 2 ^ Z.of_nat (Z.to_nat num_attempts - 1)) by (apply Z.pow_pos_nonneg; lia).
    lia.
  - destruct (attempts_schedule _ _ _ _ _ _ _ _ Hrun HN) as ((Hlo & Hhi) & _ & Hsl).
    pose proof (Forall2_length Hsl) as Hlen.
    rewrite length_map, length_seq in Hlen.
    pose proof (total_backoff _ _ _ _ Hsl) as Htot.
    rewrite <- Hlen in Htot. cbn [Z.of_nat Z.pow] in Htot.
    assert (Heq : (total (sleeps (emitted (make_durable_request method url num_attempts
                     delay success_codes success error json n)))
                   == delay * (inject_Z (2 ^ Z.of_nat (List.length (sleeps (emitted
                        (make_durable_request method url num_attempts delay success_codes
                           success error json n))))) - 1))%Q).
    { rewrite Htot. change (inject_Z (2 ^ 0)) with 1%Q. ring. }
    split; [exact Heq |].
    rewrite Heq. rewrite !(Qmult_comm delay).
    apply Qmult_le_compat_r; [| exact Hd].
    apply Qplus_le_l. rewrite <- Zle_Qle.
    apply Z.pow_le_mono_r; lia.
Qed.

(** X8: the two checks come in order: [num_attempts <= 0] is reported
    first, whatever the delay, and a negative delay only for a valid
    [num_attempts]; each has its own message. *)
Theorem validation_order method url num_attempts delay success_codes
    success error json n :
  let run := make_durable_request method url num_attempts delay success_codes
               success error json n in
  (num_attempts <= 0 ->
   value run = Raise (ValueError "The value of `num_attempts` must be greater than 0."))
  /\ (0 < num_attempts -> (delay < 0)%Q ->
      value run =
        Raise (ValueError "The value of `delay` must be greater than or equal to 0.")).
Proof.
  cbv zeta. split.
  - intros HN. rewrite rejected_attempts by exact HN. reflexivity.
  - intros HN Hd. rewrite rejected_delay by assumption. reflexivity.
Qed.

End ExecutorProperties.


(** ** The presets *)

Section PresetProperties.

Context {Net : Type}.
Implicit Types (n : Net).

(** The fetch preset: the executor's outcome with a success unwrapped
    into a normal return. *)
Lemma make_durable_get_unfold (requests_get : Method Net) url N delay n :
  make_durable_get requests_get url N delay n =
  let r := make_durable_request requests_get url N delay None None None None n in
  mkRun
    match value r with
    | Return _ => Raise (UnboundLocalError "response")
    | Raise (Success _ response) => Return response
    | Raise exc => Raise exc
    end
    (emitted r) (after r).
Proof.
  unfold make_durable_get, bind, try_except, ret, raise. cbv beta zeta.
  destruct (make_durable_request requests_get url N delay None None None None n)
    as [[[] | exc] evs n1]; cbn [value emitted after].
  - rewrite !app_nil_r. reflexivity.
  - destruct exc; cbn [value emitted after]; rewrite ?app_nil_r; reflexivity.
Qed.

Lemma default_codes_not_5xx (code : Z) :
  int_in code default_success_codes = true -> server_error code = false.
Proof.
  unfold int_in, default_success_codes, server_error. cbn [existsb].
  intros H. repeat (apply Bool.orb_true_iff in H; destruct H as [H | H]);
    try discriminate; apply Z.eqb_eq in H; subst; reflexivity.
Qed.

(** How a preset ends when its transport only returns responses or fails
    to connect. *)
Lemma preset_endings (method : Method Net) url N delay success_codes success error
    json n :
  let run := make_durable_request method url N delay success_codes success error
               json n in
  Forall (fun c => expected (snd c) = true) (calls (emitted run)) ->
  (exists r kw, value run = Raise (Success (class_or success RequestSuccess) r)
                /\ In (kw, Returns r) (calls (emitted run)))
  \/ (exists msg, value run = Raise (ValueError msg))
  \/ (exists msg, value run = Raise (Error (class_or error RequestError) msg)).
Proof.
  cbv zeta. intros Hall.
  destruct (run_cases method url N delay success_codes success error json n)
    as [(_ & _ & msg & Hv) | (_ & _ & Hrun)].
  - right. left. eauto.
  - destruct (attempts_expected _ _ _ _ _ _ _ _ Hrun Hall) as [(r & Hv & Hin) | Hv].
    + left. eauto.
    + right. right. exact Hv.
Qed.

(** X9: the fetch preset uses the default success set.  When the first
    transport call returns a 200, 201, 202 or 204, [make_durable_get]
    returns that response after one call and no sleep; any other status
    outside the 5xx range (a 409, say) makes it raise [RequestError]. *)
Theorem fetch_success_returned (requests_get : Method Net) url num_attempts delay
    n kw r :
  let run := make_durable_get requests_get url num_attempts delay n in
  hd_error (calls (emitted run)) = Some (kw, Returns r) ->
  (int_in (status_code r) [200; 201; 202; 204] = true ->
   value run = Return r
   /\ calls (emitted run) = [(kw, Returns r)]
   /\ sleeps (emitted run) = [])
  /\ (int_in (status_code r) [200; 201; 202; 204] = false ->
      server_error (status_code r) = false ->
      value run =
        Raise (Error RequestError
                 ("Could not complete request due to stauts code "
                    ++ str_int (status_code r) ++ ": " ++ text r))).
Proof.
  cbv zeta. rewrite make_durable_get_unfold. cbv zeta. cbn [value emitted].
  intros Hhd. split.
  - intros Hin.
    pose proof (run_first_response requests_get url num_attempts delay
                  None None None None n kw r Hhd
                  (default_codes_not_5xx _ Hin)) as Hcase.
    cbv zeta in Hcase. cbn [list_or] in Hcase.
    unfold default_success_codes in Hcase. rewrite Hin in Hcase.
    destruct Hcase as [-> ->]. auto.
  - intros Hin H5.
    pose proof (run_first_response requests_get url num_attempts delay
                  None None None None n kw r Hhd H5) as Hcase.
    cbv zeta in Hcase. cbn [list_or] in Hcase.
    unfold default_success_codes in Hcase. rewrite Hin in Hcase.
    destruct Hcase as [_ ->]. reflexivity.
Qed.

(** X10: the fetch preset never sends a body: every transport call of
    [make_durable_get] is made to [url] with no [json]. *)
Theorem fetch_sends_no_body (requests_get : Method Net) url num_attempts delay n :
  Forall (fun c => fst c = mkKwargs url None)
    (calls (emitted (make_durable_get requests_get url num_attempts delay n))).
Proof.
  rewrite make_durable_get_unfold. cbv zeta. cbn [emitted].
  destruct (run_cases requests_get url num_attempts delay None None None None n)
    as [[He _] | (_ & _ & Hrun)].
  - rewrite He. constructor.
  - exact (attempts_calls_kwargs _ _ _ _ _ _ _ _ Hrun).
Qed.

(** X11: when every transport call returns a response or fails to connect,
    [make_durable_post] either returns a response the transport returned,
    or raises [ValueError] (rejected arguments) or [StoreError]; the
    success exception never reaches the caller. *)
Theorem store_preset_endings (requests_post : Method Net) url num_attempts delay
    json n :
  let run := make_durable_post requests_post url num_attempts delay json n in
  Forall (fun c => expected (snd c) = true) (calls (emitted run)) ->
  (exists r kw, value run = Return r /\ In (kw, Returns r) (calls (emitted run)))
  \/ (exists msg, value run = Raise (ValueError msg))
  \/ (exists msg, value run = Raise (Error StoreError msg)).
Proof.
  cbv zeta. rewrite make_durable_post_unfold. cbv zeta. cbn [value emitted].
  intros Hall.
  destruct (preset_endings requests_post url num_attempts delay (Some [201; 409])
              (Some StoreSuccess) (Some StoreError) (Some json) n Hall)
    as [(r & kw & Hv & Hin) | [(msg & Hv) | (msg & Hv)]]; rewrite Hv; cbn.
  - left. eauto.
  - right. left. eauto.
  - right. right. eauto.
Qed.

(** X12: when every transport call returns a response or fails to connect,
    [make_durable_get] either returns a response the transport returned,
    or raises [ValueError] (rejected arguments) or [RequestError]. *)
Theorem fetch_preset_endings (requests_get : Method Net) url num_attempts delay n :
  let run := make_durable_get requests_get url num_attempts delay n in
  Forall (fun c => expected (snd c) = true) (calls (emitted run)) ->
  (exists r kw, value run = Return r /\ In (kw, Returns r) (calls (emitted run)))
  \/ (exists msg, value run = Raise (ValueError msg))
  \/ (exists msg, value run = Raise (Error RequestError msg)).
Proof.
  cbv zeta. rewrite make_durable_get_unfold. cbv zeta. cbn [value emitted].
  intros Hall.
  destruct (preset_endings requests_get url num_attempts delay None None None None
              n Hall)
    as [(r & kw & Hv & Hin) | [(msg & Hv) | (msg & Hv)]]; rewrite Hv; cbn.
  - left. eauto.
  - right. left. eauto.
  - right. right. eauto.
Qed.

(** X13: every transport call of [make_durable_post] is made to [url] and
    carries the payload, unless the payload is the empty dict: then every
    call is made without a body. *)
Theorem store_payload_sent (requests_post : Method Net) url num_attempts delay
    (json : Dict) n :
  Forall
    (fun c => fst c = mkKwargs url match json with
                                   | [] => None
                                   | _ :: _ => Some json
                                   end)
    (calls (emitted (make_durable_post requests_post url num_attempts delay json n))).
Proof.
  rewrite make_durable_post_unfold. cbv zeta. cbn [emitted].
  destruct (run_cases requests_post url num_attempts delay (Some [201; 409])
              (Some StoreSuccess) (Some StoreError) (Some json) n)
    as [[He _] | (_ & _ & Hrun)].
  - rewrite He. constructor.
  - apply attempts_calls_kwargs in Hrun.
    eapply Forall_impl; [| exact Hrun].
    intros c ->. unfold request_kwargs, truthy. destruct json; reflexivity.
Qed.

End PresetProperties.

(** ** Dicts and strings *)

Lemma dict_get_set_same {V} (k : string) (v : V) (d : dict V) :
  dict_get k (dict_set k v d) = Some v.
Proof.
  induction d as [| [k' v'] d IH]; cbn.
  - rewrite String.eqb_refl. reflexivity.
  - destruct (String.eqb k k') eqn:E; cbn; rewrite ?String.eqb_refl, ?E; auto.
Qed.

Lemma dict_get_set_other {V} (k k' : string) (v : V) (d : dict V) :
  k' <> k -> dict_get k' (dict_set k v d) = dict_get k' d.
Proof.
  intros Hk. induction d as [| [k0 v0] d IH]; cbn.
  - destruct (String.eqb_spec k' k); [contradiction | reflexivity].
  - destruct (String.eqb_spec k k0) as [-> | Hk0]; cbn.
    + destruct (String.eqb_spec k' k0); [contradiction | reflexivity].
    + rewrite IH. reflexivity.
Qed.

Lemma dict_set_length_new {V} (k : string) (v : V) (d : dict V) :
  dict_get k d = None -> List.length (dict_set k v d) = S (List.length d).
Proof.
  induction d as [| [k' v'] d IH]; cbn; [reflexivity |].
  destruct (String.eqb k k'); [discriminate |].
  intros H. cbn. rewrite (IH H). reflexivity.
Qed.

Lemma split_not_nil (sep : ascii) (s : string) : split sep s <> [].
Proof.
  destruct s as [| c s]; cbn; [discriminate |].
  destruct (Ascii.eqb c sep); [discriminate |].
  destruct (split sep s); discriminate.
Qed.

(** Joining the pieces with the separator gives the string back. *)
Lemma split_concat (sep : ascii) (s : string) :
  String.concat (String sep EmptyString) (split sep s) = s.
Proof.
  induction s as [| c s IH]; [reflexivity |].
  cbn [split].
  pose proof (split_not_nil sep s) as Hnil.
  destruct (split sep s) as [| piece pieces]; [contradiction |].
  destruct (Ascii.eqb_spec c sep) as [-> | Hc].
  - change (String.concat (String sep "") ("" :: piece :: pieces))
      with (String sep (String.concat (String sep "") (piece :: pieces))).
    rewrite IH. reflexivity.
  - rewrite <- IH. destruct pieces; reflexivity.
Qed.

(** No piece holds the separator. *)
Lemma split_no_sep (sep : ascii) (s : string) :
  Forall (fun piece => contains sep piece = false) (split sep s).
Proof.
  induction s as [| c s IH]; cbn [split].
  - repeat constructor.
  - destruct (Ascii.eqb c sep) eqn:Hc.
    + constructor; [reflexivity | exact IH].
    + destruct (split sep s) as [| piece pieces].
      * repeat constructor. cbn. rewrite Hc. reflexivity.
      * inversion IH; subst. constructor; [| assumption].
        cbn. rewrite Hc. assumption.
Qed.

(** ** The date cache *)

Section DatesProperties.

Context {Clock : Type}.
Variable parse : string -> Clock -> completion datetime * Clock.
Variable timestamp : datetime -> Q.

(** The three ways a call of [parse_date] goes. *)
Lemma parse_date_cases (s : string) (st : dates Clock) :
  (exists v, dict_get s (PARSED_DATES st) = Some v
             /\ parse_date parse s st = (Normal v, st))
  \/ (exists v c, dict_get s (PARSED_DATES st) = None
                  /\ parse s (clock st) = (Normal v, c)
                  /\ parse_date parse s st
                     = (Normal v,
                        mkDates (dict_set s v (PARSED_DATES st))
                          (parsed st ++ [s]) c))
  \/ (exists e c, dict_get s (PARSED_DATES st) = None
                  /\ parse s (clock st) = (Abrupt e, c)
                  /\ parse_date parse s st
                     = (Abrupt e, mkDates (PARSED_DATES st) (parsed st ++ [s]) c)).
Proof.
  unfold parse_date.
  destruct (dict_get s (PARSED_DATES st)) as [v |] eqn:Hget.
  - left. exists v. rewrite Hget. auto.
  - destruct (parse s (clock st)) as [[v | e] c].
    + right. left. exists v, c. cbn [PARSED_DATES].
      rewrite dict_get_set_same. auto.
    + right. right. exists e, c. auto.
Qed.

Lemma parse_date_hit (s : string) (st : dates Clock) (v : datetime) :
  dict_get s (PARSED_DATES st) = Some v ->
  parse_date parse s st = (Normal v, st).
Proof.
  intros H.
  destruct (parse_date_cases s st)
    as [(v' & Hget & Hrun) | [(v' & c & Hget & _) | (e & c & Hget & _)]];
    congruence.
Qed.

Lemma parse_date_again (s : string) (st st1 : dates Clock) (v : datetime) :
  parse_date parse s st = (Normal v, st1) ->
  parse_date parse s st1 = (Normal v, st1).
Proof.
  intros H. apply parse_date_hit.
  destruct (parse_date_cases s st)
    as [(v' & Hget & Hrun) | [(v' & c & Hget & Hp & Hrun) | (e & c & Hget & Hp & Hrun)]];
    rewrite Hrun in H; inversion H; subst; cbn [PARSED_DATES].
  - exact Hget.
  - apply dict_get_set_same.
Qed.

(** X14: a string that is in the cache is not parsed again: [parse_date]
    returns the cached datetime and leaves the cache, the parser and its
    clock untouched, whatever the parser would answer now. *)
Theorem parse_date_cached (s : string) (st : dates Clock) (v : datetime) :
  dict_get s (PARSED_DATES st) = Some v ->
  parse_date parse s st = (Normal v, st).
Proof. exact (parse_date_hit s st v). Qed.

(** X15: a string that is not in the cache is parsed once; when the
    parser returns a datetime, [parse_date] returns it and stores it under
    that string: the cache has one entry more, and the other keys keep
    their values. *)
Theorem parse_date_stores (s : string) (st : dates Clock) (v : datetime) (c : Clock) :
  dict_get s (PARSED_DATES st) = None ->
  parse s (clock st) = (Normal v, c) ->
  let st' := snd (parse_date parse s st) in
  fst (parse_date parse s st) = Normal v
  /\ dict_get s (PARSED_DATES st') = Some v
  /\ List.length (PARSED_DATES st') = S (List.length (PARSED_DATES st))
  /\ (forall k, k <> s -> dict_get k (PARSED_DATES st') = dict_get k (PARSED_DATES st))
  /\ parsed st' = (parsed st ++ [s])%list.
Proof.
  intros Hget Hparse. cbv zeta.
  destruct (parse_date_cases s st)
    as [(v' & Hget' & _) | [(v' & c' & _ & Hp & ->) | (e & c' & _ & Hp & _)]];
    try congruence.
  assert (v' = v) by congruence. subst v'. cbn [fst snd PARSED_DATES parsed].
  repeat split.
  - apply dict_get_set_same.
  - apply dict_set_length_new. exact Hget.
  - intros k Hk. apply dict_get_set_other. exact Hk.
Qed.

(** X16: [parse_date] raises only what the parser raises: it raises [e]
    exactly when the string is not cached and the parser raises [e] on it,
    and then the cache is as it was. *)
Theorem parse_date_raises (s : string) (st : dates Clock) (e : pyexc) :
  (fst (parse_date parse s st) = Abrupt e
   <-> dict_get s (PARSED_DATES st) = None /\ fst (parse s (clock st)) = Abrupt e)
  /\ (fst (parse_date parse s st) = Abrupt e ->
      PARSED_DATES (snd (parse_date parse s st)) = PARSED_DATES st).
Proof.
  destruct (parse_date_cases s st)
    as [(v & Hget & ->) | [(v & c & Hget & Hp & ->) | (e' & c & Hget & Hp & ->)]];
    cbn [fst snd PARSED_DATES]; rewrite ?Hp; cbn [fst].
  - split; [split; [discriminate | intros [H _]; congruence] | discriminate].
  - split; [split; [discriminate | intros [_ H]; discriminate] | discriminate].
  - split; [| reflexivity]. split; [intros H; auto | intros [_ H]; exact H].
Qed.

(** X17: asking twice gives the same answer: after [parse_date] returned
    a datetime for a string, a second call returns that datetime again
    without parsing and changes nothing. *)
Theorem parse_date_twice (s : string) (st st1 : dates Clock) (v : datetime) :
  parse_date parse s st = (Normal v, st1) ->
  parse_date parse s st1 = (Normal v, st1).
Proof. exact (parse_date_again s st st1 v). Qed.

(** X18: the cache only grows: a call of [parse_date], however it ends,
    keeps every entry of the cache with its value, adds at most one entry,
    and asks the parser at most once, for its own argument. *)
Theorem cache_only_grows (s : string) (st : dates Clock) :
  let st' := snd (parse_date parse s st) in
  (forall k v, dict_get k (PARSED_DATES st) = Some v ->
               dict_get k (PARSED_DATES st') = Some v)
  /\ (List.length (PARSED_DATES st) <= List.length (PARSED_DATES st')
      <= S (List.length (PARSED_DATES st)))%nat
  /\ (parsed st' = parsed st \/ parsed st' = (parsed st ++ [s])%list).
Proof.
  cbv zeta.
  destruct (parse_date_cases s st)
    as [(v' & Hget & ->) | [(v' & c & Hget & Hp & ->) | (e & c & Hget & Hp & ->)]];
    cbn [snd PARSED_DATES parsed].
  - repeat split; auto.
  - repeat split; auto.
    + intros k v Hk. rewrite dict_get_set_other; [exact Hk |]. congruence.
    + rewrite (dict_set_length_new _ _ _ Hget). lia.
    + rewrite (dict_set_length_new _ _ _ Hget). lia.
  - repeat split; auto.
Qed.

(** X19: [date_string_to_timestamp] goes through the cache: once it has
    returned a timestamp for a string, a second call returns the same
    timestamp without parsing and changes nothing. *)
Theorem date_string_to_timestamp_twice (s : string) (st st1 : dates Clock) (ts : Z) :
  date_string_to_timestamp parse timestamp s st = (Normal ts, st1) ->
  date_string_to_timestamp parse timestamp s st1 = (Normal ts, st1).
Proof.
  unfold date_string_to_timestamp. intros H.
  destruct (parse_date parse s st) as [[v | e] st'] eqn:Hrun; inversion H; subst.
  rewrite (parse_date_again _ _ _ _ Hrun). reflexivity.
Qed.

End DatesProperties.

(** ** Registering command line arguments *)

Section ParseArgsProperties.

Context {ArgData Parser Namespace : Type}.
Variable ArgumentParser : config_value ArgData -> Parser.
Variable add_argument :
  list string -> ArgData -> Parser -> completion unit * Parser.
Variable parser_parse_args : Parser -> completion Namespace * Parser.

(** The loop registers the items in order and stops at the first that is
    refused. *)
Lemma add_arguments_log (its : list (string * ArgData)) (parser : Parser) :
  let '(r, _, log) := add_arguments add_argument its parser in
  match r with
  | Normal _ => log = map registration its
  | Abrupt e =>
      exists done item rest p,
        its = (done ++ item :: rest)%list
        /\ log = map registration (done ++ [item])
        /\ fst (add_argument (split ","%char (fst item)) (snd item) p) = Abrupt e
  end.
Proof.
  revert parser. induction its as [| [arg arg_data] its IH]; intros parser.
  - reflexivity.
  - cbn [add_arguments].
    destruct (add_argument (split ","%char arg) arg_data parser)
      as [[[] | e] parser'] eqn:Hadd.
    + specialize (IH parser').
      destruct (add_arguments add_argument its parser') as [[r parser''] log].
      destruct r as [[] | e].
      * rewrite IH. reflexivity.
      * destruct IH as (done & item & rest & p & -> & -> & Hp).
        exists ((arg, arg_data) :: done), item, rest, p. repeat split. exact Hp.
    + exists [], (arg, arg_data), its, parser. repeat split.
      cbn [fst snd]. rewrite Hadd. reflexivity.
Qed.

(** What [parse_args] asks of [argparse], by how far it gets. *)
Lemma parse_args_log (configuration : dict (config_value ArgData))
    (description : config_value ArgData) (its : list (string * ArgData)) :
  dict_get "description" configuration = Some description ->
  dict_get "args" configuration = Some (VArgs its) ->
  let run := parse_args ArgumentParser add_argument parser_parse_args configuration in
  (snd run = (NewParser description :: map registration its ++ [ParseArgs])%list)
  \/ (exists e done item rest p,
        fst run = Abrupt e
        /\ its = (done ++ item :: rest)%list
        /\ snd run = NewParser description :: map registration (done ++ [item])
        /\ fst (add_argument (split ","%char (fst item)) (snd item) p) = Abrupt e).
Proof.
  intros Hd Ha. cbv zeta. unfold parse_args. rewrite Hd, Ha. cbn [items].
  pose proof (add_arguments_log its (ArgumentParser description)) as Hlog.
  destruct (add_arguments add_argument its (ArgumentParser description))
    as [[r parser'] log].
  destruct r as [[] | e]; cbn [fst snd].
  - left. rewrite Hlog. reflexivity.
  - right. destruct Hlog as (done & item & rest & p & Hits & Hl & Hp).
    exists e, done, item, rest, p. rewrite Hl. auto.
Qed.

(** X20: a configuration without ["description"] makes [parse_args] raise
    [KeyError] for that key, and one with it but without ["args"] for
    ["args"]; in both cases before any parser is made. *)
Theorem parse_args_missing_key (configuration : dict (config_value ArgData)) :
  let run := parse_args ArgumentParser add_argument parser_parse_args configuration in
  (dict_get "description" configuration = None ->
   run = (Abrupt (KeyError "description"), []))
  /\ (dict_get "description" configuration <> None ->
      dict_get "args" configuration = None ->
      run = (Abrupt (KeyError "args"), [])).
Proof.
  cbv zeta. unfold parse_args. split.
  - intros ->. reflexivity.
  - intros Hd ->. destruct (dict_get "description" configuration);
      [reflexivity | contradiction].
Qed.

(** X21: whenever [parse_args] returns a namespace, it has made one parser
    with the description, registered each item of ["args"] once, in the
    order of the dict, with the comma-separated pieces of its key as
    option strings and its value as keyword arguments, and then parsed the
    command line once. *)
Theorem parse_args_registers_in_order (configuration : dict (config_value ArgData))
    (ns : Namespace) :
  let run := parse_args ArgumentParser add_argument parser_parse_args configuration in
  fst run = Normal ns ->
  exists description its,
    dict_get "description" configuration = Some description
    /\ dict_get "args" configuration = Some (VArgs its)
    /\ snd run
       = (NewParser description
            :: map (fun item => AddArgument (split ","%char (fst item)) (snd item)) its
            ++ [ParseArgs])%list.
Proof.
  cbv zeta. intros Hret.
  destruct (dict_get "description" configuration) as [description |] eqn:Hd;
    [| unfold parse_args in Hret; rewrite Hd in Hret; discriminate].
  destruct (dict_get "args" configuration) as [[s | its] |] eqn:Ha;
    try (unfold parse_args in Hret; rewrite Hd, Ha in Hret; discriminate).
  exists description, its. repeat split.
  destruct (parse_args_log configuration description its Hd Ha)
    as [Hlog | (e & done & item & rest & p & He & _)].
  - exact Hlog.
  - rewrite He in Hret. discriminate.
Qed.

(** X22: with a description and a dict of arguments, when [parse_args]
    ends without having parsed the command line, an [add_argument] raised
    and [parse_args] raises the same exception at once: the items before
    that one were registered, in order, and none after it. *)
Theorem parse_args_stops_at_failure (configuration : dict (config_value ArgData))
    (description : config_value ArgData) (its : list (string * ArgData)) :
  let run := parse_args ArgumentParser add_argument parser_parse_args configuration in
  dict_get "description" configuration = Some description ->
  dict_get "args" configuration = Some (VArgs its) ->
  ~ In ParseArgs (snd run) ->
  exists e done item rest p,
    fst run = Abrupt e
    /\ fst (add_argument (split ","%char (fst item)) (snd item) p) = Abrupt e
    /\ its = (done ++ item :: rest)%list
    /\ snd run
       = NewParser description
           :: map (fun item => AddArgument (split ","%char (fst item)) (snd item))
                (done ++ [item]).
Proof.
  cbv zeta. intros Hd Ha Hno.
  destruct (parse_args_log configuration description its Hd Ha)
    as [Hlog | (e & done & item & rest & p & He & Hits & Hlog & Hp)].
  - exfalso. apply Hno. rewrite Hlog. right. apply in_or_app. right. left. reflexivity.
  - exists e, done, item, rest, p. auto.
Qed.

(** X23: the option strings of every [add_argument] that [parse_args]
    makes are the pieces of a key of ["args"] between its commas: there is
    at least one, none holds a comma, and joined with commas they give the
    key back. *)
Theorem parse_args_flags (configuration : dict (config_value ArgData))
    (flags : list string) (arg_data : ArgData) :
  In (AddArgument flags arg_data)
    (snd (parse_args ArgumentParser add_argument parser_parse_args configuration)) ->
  flags <> []
  /\ Forall (fun flag => contains ","%char flag = false) flags
  /\ exists its,
       dict_get "args" configuration = Some (VArgs its)
       /\ In (String.concat "," flags, arg_data) its.
Proof.
  intros Hin.
  destruct (dict_get "description" configuration) as [description |] eqn:Hd;
    [| unfold parse_args in Hin; rewrite Hd in Hin; contradiction].
  destruct (dict_get "args" configuration) as [[s | its] |] eqn:Ha;
    try (unfold parse_args in Hin; rewrite Hd, Ha in Hin; cbn in Hin;
         try contradiction; destruct Hin as [Hin | []]; discriminate).
  assert (Hreg : exists item, In item its /\ AddArgument flags arg_data = registration item).
  { destruct (parse_args_log configuration description its Hd Ha)
      as [Hlog | (e & done & item & rest & p & _ & Hits & Hlog & _)];
      rewrite Hlog in Hin; destruct Hin as [Hin | Hin]; try discriminate.
    - apply in_app_or in Hin. destruct Hin as [Hin | [Hin | []]]; [| discriminate].
      apply in_map_iff in Hin. destruct Hin as (item & Heq & Hitem). eauto.
    - apply in_map_iff in Hin. destruct Hin as (it & Heq & Hitem).
      exists it. split; [| auto]. rewrite Hits.
      apply in_app_or in Hitem. apply in_or_app.
      destruct Hitem as [Hitem | [<- | []]]; [left | right; left]; auto. }
  destruct Hreg as ([key data] & Hitem & Heq). unfold registration in Heq.
  cbn [fst snd] in Heq. inversion Heq; subst.
  split; [apply split_not_nil |]. split; [apply split_no_sep |].
  exists its. split; [reflexivity |].
  change "," with (String ","%char EmptyString). rewrite split_concat. exact Hitem.
Qed.

End ParseArgsProperties.

(** ** Testing for an exception *)

Section AssertRaisesProperties.

Context {State Args Kwargs Result : Type}.
Variable fn : Args -> Kwargs -> State -> completion Result * State.

(** X24: [assert_raises] returns normally if and only if [fn] raised an
    instance of [exc]. *)
Theorem assert_raises_passes_iff (args : Args) (kwargs : Kwargs) (exc : string)
    (st : State) :
  fst (assert_raises fn args kwargs exc st) = Normal tt
  <-> exists e, fst (fn args kwargs st) = Abrupt e /\ isinstance e exc = true.
Proof.
  unfold assert_raises.
  destruct (fn args kwargs st) as [[r | e] st']; cbn [fst].
  - split; [discriminate | intros (e & He & _); discriminate].
  - destruct (isinstance e exc) eqn:Hexc.
    + split; [eauto | reflexivity].
    + split.
      * destruct (isinstance e "Exception"); discriminate.
      * intros (e' & He & Hi). congruence.
Qed.

(** X25: when [assert_raises] does not return normally, it raises
    [AssertionError] with the message that names [exc], except for an
    exception of [fn] that is neither an instance of [exc] nor of
    [Exception] (a [KeyboardInterrupt], say), which it passes on as it
    is. *)
Theorem assert_raises_failure (args : Args) (kwargs : Kwargs) (exc : string)
    (st : State) (raised : pyexc) :
  fst (assert_raises fn args kwargs exc st) = Abrupt raised ->
  raised = AssertionError ("Did not raise <class '" ++ exc ++ "'>")
  \/ (fst (fn args kwargs st) = Abrupt raised
      /\ isinstance raised exc = false
      /\ isinstance raised "Exception" = false).
Proof.
  unfold assert_raises, str_class.
  destruct (fn args kwargs st) as [[r | e] st']; cbn [fst].
  - intros H. inversion H. left. reflexivity.
  - destruct (isinstance e exc) eqn:Hexc; [discriminate |].
    destruct (isinstance e "Exception") eqn:Hex; intros H; inversion H; subst.
    + left. reflexivity.
    + right. auto.
Qed.

(** X26: [assert_raises] tested with itself: when [fn] returns normally,
    or raises an [Exception] that is not an instance of [exc], the call
    [assert_raises(fn, ..., exc)] fails, so expecting [AssertionError]
    from that call passes. *)
Theorem assert_raises_nested (args : Args) (kwargs : Kwargs) (exc : string)
    (st : State) :
  (forall e, fst (fn args kwargs st) = Abrupt e ->
             isinstance e exc = false /\ isinstance e "Exception" = true) ->
  fst (assert_raises
         (fun (_ _ : unit) => assert_raises fn args kwargs exc)
         tt tt "AssertionError" st)
  = Normal tt.
Proof.
  intros Hfn. unfold assert_raises at 1.
  unfold assert_raises.
  destruct (fn args kwargs st) as [[r | e] st']; cbn [fst] in *.
  - reflexivity.
  - destruct (Hfn e eq_refl) as [-> ->]. reflexivity.
Qed.

End AssertRaisesProperties.

(** ** The further properties on concrete runs *)

Lemma exhaustion_spends_budget_witness :
  last_call (emitted run_exhausted)
  = Some (mkKwargs resource (Some payload), Returns response_503)
  /\ retryable (Returns response_503) = true
  /\ value run_exhausted = Raise (Error RequestError "Unable to complete request.")
  /\ List.length (calls (emitted run_exhausted)) = 3%nat.
Proof.
  split; [reflexivity |]. split; [reflexivity |].
  unfold run_exhausted.
  apply (exhaustion_spends_budget scripted resource 3 (1 # 2) None None None
           (Some payload)
           [Returns response_504; Raises ConnectionError; Returns response_503]
           (mkKwargs resource (Some payload)) (Returns response_503));
    reflexivity.
Defined.

Lemma ending_on_last_outcome_witness :
  last_call (emitted run_retry_then_success)
  = Some (mkKwargs resource (Some payload), Returns response_201)
  /\ retryable (Returns response_201) = false
  /\ value run_retry_then_success = Raise (Success RequestSuccess response_201).
Proof.
  split; [reflexivity |]. split; [reflexivity |].
  unfold run_retry_then_success.
  exact (ending_on_last_outcome scripted resource 3 0 None None None (Some payload)
           [Returns response_504; Returns response_201]
           (mkKwargs resource (Some payload)) (Returns response_201)
           eq_refl eq_refl).
Defined.

Lemma total_sleep_bounded_witness :
  (0 <= 1 # 2)%Q
  /\ (total (sleeps (emitted run_exhausted)) == (1 # 2) * (inject_Z (2 ^ 2) - 1))%Q
  /\ (total (sleeps (emitted run_exhausted)) <= (1 # 2) * (inject_Z (2 ^ 2) - 1))%Q.
Proof.
  split; [discriminate |].
  unfold run_exhausted.
  apply (total_sleep_bounded scripted resource 3 (1 # 2) None None None (Some payload)
           [Returns response_504; Raises ConnectionError; Returns response_503]).
  discriminate.
Defined.

Lemma fetch_success_returned_witness :
  hd_error (calls (emitted run_fetch))
  = Some (mkKwargs "http://example.com/resource/1" None, Returns (mkResponse 200 "Cool"))
  /\ int_in 200 [200; 201; 202; 204] = true
  /\ value run_fetch = Return (mkResponse 200 "Cool")
  /\ calls (emitted run_fetch)
     = [(mkKwargs "http://example.com/resource/1" None, Returns (mkResponse 200 "Cool"))]
  /\ sleeps (emitted run_fetch) = [].
Proof.
  split; [reflexivity |]. split; [reflexivity |].
  unfold run_fetch.
  apply (fetch_success_returned scripted "http://example.com/resource/1" 3 1
           [Returns (mkResponse 200 "Cool")]
           (mkKwargs "http://example.com/resource/1" None) (mkResponse 200 "Cool"));
    reflexivity.
Defined.

Lemma store_preset_endings_witness :
  Forall (fun c => expected (snd c) = true) (calls (emitted run_store_conflict))
  /\ ((exists r kw, value run_store_conflict = Return r
                    /\ In (kw, Returns r) (calls (emitted run_store_conflict)))
      \/ (exists msg, value run_store_conflict = Raise (ValueError msg))
      \/ (exists msg, value run_store_conflict = Raise (Error StoreError msg))).
Proof.
  assert (Hall : Forall (fun c => expected (snd c) = true)
                   (calls (emitted run_store_conflict)))
    by (vm_compute; repeat constructor).
  split; [exact Hall |].
  unfold run_store_conflict in *.
  exact (store_preset_endings scripted resource 3 1 payload [Returns response_409] Hall).
Defined.

Lemma fetch_preset_endings_witness :
  Forall (fun c => expected (snd c) = true) (calls (emitted run_fetch))
  /\ ((exists r kw, value run_fetch = Return r
                    /\ In (kw, Returns r) (calls (emitted run_fetch)))
      \/ (exists msg, value run_fetch = Raise (ValueError msg))
      \/ (exists msg, value run_fetch = Raise (Error RequestError msg))).
Proof.
  assert (Hall : Forall (fun c => expected (snd c) = true) (calls (emitted run_fetch)))
    by (vm_compute; repeat constructor).
  split; [exact Hall |].
  unfold run_fetch in *.
  exact (fetch_preset_endings scripted "http://example.com/resource/1" 3 1
           [Returns (mkResponse 200 "Cool")] Hall).
Defined.

Lemma parse_date_cached_witness :
  dict_get "2020-06-20T14:39:10-0600" (PARSED_DATES one_date)
  = Some (mkDatetime 2020 6 20 14 39 10 0 (Some (tzoffset None (-21600))))
  /\ parse_date one_date_parser "2020-06-20T14:39:10-0600" one_date
     = (Normal (mkDatetime 2020 6 20 14 39 10 0 (Some (tzoffset None (-21600)))),
        one_date).
Proof.
  split; [reflexivity |].
  apply (parse_date_cached one_date_parser). reflexivity.
Defined.

Lemma parse_date_stores_witness :
  dict_get "2020-06-20T14:39:10-0600" (PARSED_DATES no_dates) = None
  /\ fst (parse_date one_date_parser "2020-06-20T14:39:10-0600" no_dates)
     = Normal (mkDatetime 2020 6 20 14 39 10 0 (Some (tzoffset None (-21600))))
  /\ List.length (PARSED_DATES (snd (parse_date one_date_parser
                                       "2020-06-20T14:39:10-0600" no_dates)))
     = 1%nat.
Proof.
  split; [reflexivity |].
  destruct (parse_date_stores one_date_parser "2020-06-20T14:39:10-0600" no_dates
              (mkDatetime 2020 6 20 14 39 10 0 (Some (tzoffset None (-21600)))) 1%nat
              eq_refl eq_refl) as (Hv & _ & Hlen & _).
  split; [exact Hv | exact Hlen].
Defined.

Lemma parse_date_twice_witness :
  parse_date one_date_parser "2020-06-20T14:39:10-0600" no_dates
  = (Normal (mkDatetime 2020 6 20 14 39 10 0 (Some (tzoffset None (-21600)))), one_date)
  /\ parse_date one_date_parser "2020-06-20T14:39:10-0600" one_date
     = (Normal (mkDatetime 2020 6 20 14 39 10 0 (Some (tzoffset None (-21600)))),
        one_date).
Proof.
  split; [reflexivity |].
  apply (parse_date_twice one_date_parser "2020-06-20T14:39:10-0600" no_dates).
  reflexivity.
Defined.

Lemma date_string_to_timestamp_twice_witness :
  date_string_to_timestamp one_date_parser rough_timestamp
    "2020-06-20T14:39:10-0600" no_dates
  = (Normal 1622073600, one_date)
  /\ date_string_to_timestamp one_date_parser rough_timestamp
       "2020-06-20T14:39:10-0600" one_date
     = (Normal 1622073600, one_date).
Proof.
  split; [reflexivity |].
  apply (date_string_to_timestamp_twice one_date_parser rough_timestamp
           "2020-06-20T14:39:10-0600" no_dates).
  reflexivity.
Defined.

Lemma parse_args_registers_in_order_witness :
  fst (parse_args (fun _ => []) toy_add_argument toy_parse_args tool_configuration)
  = Normal ["--option"; "-O"; "--flag"; "-F"]
  /\ exists description its,
       dict_get "description" tool_configuration = Some description
       /\ dict_get "args" tool_configuration = Some (VArgs its)
       /\ snd (parse_args (fun _ => []) toy_add_argument toy_parse_args
                 tool_configuration)
          = (NewParser description
               :: map (fun item => AddArgument (split ","%char (fst item)) (snd item)) its
               ++ [ParseArgs])%list.
Proof.
  split; [reflexivity |].
  apply (parse_args_registers_in_order (fun _ => []) toy_add_argument toy_parse_args
           tool_configuration ["--option"; "-O"; "--flag"; "-F"]).
  reflexivity.
Defined.

Lemma parse_args_stops_at_failure_witness :
  ~ In ParseArgs
      (snd (parse_args (fun _ => []) toy_add_argument toy_parse_args
              clashing_configuration))
  /\ exists e done item rest p,
       fst (parse_args (fun _ => []) toy_add_argument toy_parse_args
              clashing_configuration) = Abrupt e
       /\ fst (toy_add_argument (split ","%char (fst item)) (snd item) p) = Abrupt e
       /\ [("--flag,-F", "store_true"); ("-F", "float"); ("--other", "int")]
          = (done ++ item :: rest)%list
       /\ snd (parse_args (fun _ => []) toy_add_argument toy_parse_args
                 clashing_configuration)
          = NewParser (VStr "This is what my tool does!")
              :: map (fun item => AddArgument (split ","%char (fst item)) (snd item))
                   (done ++ [item]).
Proof.
  assert (Hno : ~ In ParseArgs
                    (snd (parse_args (fun _ => []) toy_add_argument toy_parse_args
                            clashing_configuration))).
  { vm_compute. intros [H | [H | [H | []]]]; discriminate. }
  split; [exact Hno |].
  exact (parse_args_stops_at_failure (fun _ => []) toy_add_argument toy_parse_args
           clashing_configuration (VStr "This is what my tool does!")
           [("--flag,-F", "store_true"); ("-F", "float"); ("--other", "int")]
           eq_refl eq_refl Hno).
Defined.

Lemma parse_args_flags_witness :
  In (AddArgument ["--option"; "-O"] "float")
    (snd (parse_args (fun _ => []) toy_add_argument toy_parse_args tool_configuration))
  /\ ["--option"; "-O"] <> []
  /\ Forall (fun flag => contains ","%char flag = false) ["--option"; "-O"]
  /\ exists its,
       dict_get "args" tool_configuration = Some (VArgs its)
       /\ In (String.concat "," ["--option"; "-O"], "float") its.
Proof.
  assert (Hin : In (AddArgument ["--option"; "-O"] "float")
                  (snd (parse_args (fun _ => []) toy_add_argument toy_parse_args
                          tool_configuration)))
    by (vm_compute; right; left; reflexivity).
  split; [exact Hin |].
  exact (parse_args_flags (fun _ => []) toy_add_argument toy_parse_args
           tool_configuration ["--option"; "-O"] "float" Hin).
Defined.

Lemma assert_raises_failure_witness :
  fst (assert_raises oops2 tt tt "ValueError" tt)
  = Abrupt (AssertionError "Did not raise <class 'ValueError'>")
  /\ (AssertionError "Did not raise <class 'ValueError'>"
      = AssertionError ("Did not raise <class '" ++ "ValueError" ++ "'>")
      \/ (fst (oops2 tt tt tt) = Abrupt (AssertionError "Did not raise <class 'ValueError'>")
          /\ isinstance (AssertionError "Did not raise <class 'ValueError'>") "ValueError"
             = false
          /\ isinstance (AssertionError "Did not raise <class 'ValueError'>") "Exception"
             = false)).
Proof.
  split; [reflexivity |].
  apply (assert_raises_failure oops2 tt tt "ValueError" tt). reflexivity.
Defined.

Lemma assert_raises_nested_witness :
  (forall e, fst (oops2 tt tt tt) = Abrupt e ->
             isinstance e "ValueError" = false /\ isinstance e "Exception" = true)
  /\ fst (assert_raises
            (fun (_ _ : unit) => assert_raises oops2 tt tt "ValueError")
            tt tt "AssertionError" tt)
     = Normal tt.
Proof.
  assert (H : forall e, fst (oops2 tt tt tt) = Abrupt e ->
                        isinstance e "ValueError" = false
                        /\ isinstance e "Exception" = true).
  { intros e He. inversion He. split; reflexivity. }
  split; [exact H |].
  exact (assert_raises_nested oops2 tt tt "ValueError" tt H).
Defined.
